(** * The amortization and break-even engine of the MUP dashboard

    A shallow embedding of the three copies of the engine:
    - [App.computeSeries]      from src/App.jsx (three-scenario dashboard),
    - [Part000.computeSeries]  from the scenario dashboard with text inputs,
      whose parameters go through [toNum],
    - [Part001.calc]           from the single-scenario page (the [useMemo]
      callback).

    JavaScript numbers are kept behind the interface [Number], so that every
    definition reads like the source and runs on two interpretations:
    - [Binary64]: IEEE-754 doubles (primitive floats), with NaN, infinities
      and rounding, as the engine computes them;
    - [Exact]: canonical rationals [Qc], the arithmetic in which the
      documentation states its algebraic identities. *)

From Stdlib Require Import ZArith List Bool Lia String Ascii Sorted.
From Stdlib Require Import QArith Qcanon Lqa.
From Stdlib Require Import Floats Uint63.
Import ListNotations.

Set Warnings "-inexact-float".
#[local] Open Scope Z_scope.

(** ** The operations on JavaScript numbers used by the engine *)

Class Number (num : Type) : Type := {
  zero : num;                       (* the literal 0, also ToNumber(null) *)
  one : num;                        (* the literal 1 *)
  hundred : num;                    (* the literal 100.0 *)
  thousand : num;                   (* the literal 1000 *)
  add : num -> num -> num;          (* x + y *)
  sub : num -> num -> num;          (* x - y *)
  mul : num -> num -> num;          (* x * y *)
  div : num -> num -> num;          (* x / y *)
  pow : num -> Z -> num;            (* x ** N, N the integer loop counter *)
  js_min : num -> num -> num;       (* Math.min(x, y) *)
  js_max : num -> num -> num;       (* Math.max(x, y) *)
  leb : num -> num -> bool;         (* x <= y *)
  strict_eqb : num -> num -> bool;  (* x === y *)
  isFinite : num -> bool;           (* Number.isFinite(x) *)
  of_Z : Z -> num                   (* the loop counter read as a number *)
}.

Declare Scope num_scope.
Delimit Scope num_scope with num.
Infix "+" := add : num_scope.
Infix "-" := sub : num_scope.
Infix "*" := mul : num_scope.
Infix "/" := div : num_scope.
Infix "**" := pow (at level 30, right associativity) : num_scope.
Infix "<=?" := leb : num_scope.
Infix "===" := strict_eqb (at level 70, no associativity) : num_scope.

(** The values [1], [2], ..., [N_max_top] taken by the loop counter. *)
Definition cycles (N_max_top : Z) : list Z :=
  map Z.of_nat (seq 1 (Z.to_nat N_max_top)).

(** ** The loop shared by the three copies

    [U_eff_js] and the [for] loop are textually the same in the three files;
    only the object pushed on the series differs, so the loop is written
    once, over the constructor [mkpoint] of that object. *)

Module Loop.
Section Loop.
Context {num : Type} {NM : Number num}.
#[local] Open Scope num_scope.

(** [function U_eff_js(N, q)] *)
Definition U_eff_js (N : Z) (q : num) : num :=
  if q === one then of_Z N
  else (one - q ** N) / (one - q).

(** The variables declared before the loop and assigned inside it: [data]
    (or [chartData]), [firstCost], [lastCost], [breakEven].  [None] is
    JavaScript's [null]. *)
Record Locals (P : Type) : Type := mkLocals {
  data : list P;
  firstCost : option num;
  lastCost : option num;
  breakEven : option Z
}.
Arguments mkLocals {P}.
Arguments data {P}.
Arguments firstCost {P}.
Arguments lastCost {P}.
Arguments breakEven {P}.

(** The frame of a new activation, before any declaration is executed. *)
Definition fresh {P : Type} : Locals P := mkLocals [] None None None.

(** [const data = []; let firstCost = null; let lastCost = null;
    let breakEven = null;], executed in a frame that may hold anything. *)
Definition declare {P : Type} (frame : Locals P) : Locals P :=
  mkLocals [] None None None.

Section Body.
Context {P : Type}.
Variable mkpoint : Z -> num -> P.
Variables E_start E_cycle E_EoL_mup E_single_shot q : num.

(** [amort], as iteration [N] computes it. *)
Definition amort (N : Z) : num :=
  let U := U_eff_js N q in
  let E_total_lifetime := E_start + U * E_cycle + E_EoL_mup in
  E_total_lifetime / U.

(** One iteration of the loop body. *)
Definition body (N : Z) (s : Locals P) : Locals P :=
  let amort := amort N in
  let firstCost' :=
    match firstCost s with None => Some amort | Some c => Some c end in
  let lastCost' := Some amort in
  let data' := data s ++ [mkpoint N amort] in
  let breakEven' :=
    match breakEven s with
    | None => if amort <=? E_single_shot then Some N else None
    | Some b => Some b
    end in
  mkLocals data' firstCost' lastCost' breakEven'.

(** [for (let N = 1; N <= N_max_top; N++) { ... }] from counter value [N];
    [fuel] bounds the number of iterations. *)
Fixpoint for_loop (fuel : nat) (N N_max_top : Z) (s : Locals P) : Locals P :=
  match fuel with
  | O => s
  | S fuel' =>
      if (N <=? N_max_top)%Z
      then for_loop fuel' (N + 1)%Z N_max_top (body N s)
      else s
  end.

(** The declarations followed by the whole loop. *)
Definition run (N_max_top : Z) (frame : Locals P) : Locals P :=
  for_loop (Z.to_nat N_max_top) 1 N_max_top (declare frame).
End Body.

(** The operand [firstCost] of [firstCost * 1000], which may still be
    [null]: ToNumber(null) is 0. *)
Definition to_number (o : option num) : num :=
  match o with Some x => x | None => zero end.
End Loop.
#[global] Arguments mkLocals {num P}.
#[global] Arguments data {num P}.
#[global] Arguments firstCost {num P}.
#[global] Arguments lastCost {num P}.
#[global] Arguments breakEven {num P}.
End Loop.

(** ** src/App.jsx *)

Module App.
Section App.
Context {num : Type} {NM : Number num}.
#[local] Open Scope num_scope.

(** The object [constants], the same in the three files. *)
Record Constants : Type := mkConstants {
  m_Al_mup : num;
  EF_Al_prim : num;
  E_fw_init : num;
  E_single_shot : num;
  E_use : num;
  E_clean : num;
  T_FACTOR_PER_100KM : num
}.

Record Params : Type := mkParams {
  E_manu_mup : num;
  KM_ONE_WAY : num;
  p_ret : num;
  p_scr : num;
  E_EoL_mup : num
}.

(** [{ cycle: N, MUP_g: amort * 1000, SUP_g: E_single_shot * 1000 }] *)
Record Point : Type := mkPoint {
  cycle : Z;
  MUP_g : num;
  SUP_g : num
}.

(** The object returned by [computeSeries]. *)
Record Series : Type := mkSeries {
  data : list Point;
  q : num;
  E_cycle_g : num;
  firstCost_g : num;
  lastCost_g : num;
  breakEven : option Z
}.

Definition T_FACTOR_PER_KM (constants : Constants) : num :=
  T_FACTOR_PER_100KM constants / hundred.

Definition E_fw (params : Params) (constants : Constants) : num :=
  T_FACTOR_PER_KM constants * KM_ONE_WAY params.

Definition E_rev (params : Params) (constants : Constants) : num :=
  T_FACTOR_PER_KM constants * KM_ONE_WAY params.

Definition E_mat_mup (constants : Constants) : num :=
  m_Al_mup constants * EF_Al_prim constants.

Definition E_start (params : Params) (constants : Constants) : num :=
  E_mat_mup constants + E_manu_mup params + E_fw_init constants.

Definition E_cycle (params : Params) (constants : Constants) : num :=
  E_clean constants + E_fw params constants + E_use constants
  + E_rev params constants.

(** [const q = Math.min(1, Math.max(0, p_ret))
               * (1 - Math.min(1, Math.max(0, p_scr)))] *)
Definition survival (params : Params) : num :=
  js_min one (js_max zero (p_ret params))
  * (one - js_min one (js_max zero (p_scr params))).

(** The object pushed on [data] in iteration [N]. *)
Definition push (constants : Constants) (N : Z) (amort : num) : Point :=
  mkPoint N (amort * thousand) (E_single_shot constants * thousand).

(** [amort] of iteration [N] for these inputs. *)
Definition amort (params : Params) (constants : Constants) (N : Z) : num :=
  Loop.amort (E_start params constants) (E_cycle params constants)
    (E_EoL_mup params) (survival params) N.

(** The body of [computeSeries] run in a given frame of local variables: the
    object it returns and the frame it leaves behind. *)
Definition computeSeries_in (frame : Loop.Locals Point)
    (params : Params) (constants : Constants) (N_max_top : Z)
  : Series * Loop.Locals Point :=
  let s :=
    Loop.run (push constants) (E_start params constants)
      (E_cycle params constants) (E_EoL_mup params)
      (E_single_shot constants) (survival params) N_max_top frame in
  (mkSeries (Loop.data s) (survival params)
     (E_cycle params constants * thousand)
     (Loop.to_number (Loop.firstCost s) * thousand)
     (Loop.to_number (Loop.lastCost s) * thousand)
     (Loop.breakEven s),
   s).

(** The local variables of [computeSeries] when [k] iterations of its loop
    have run. *)
Definition locals_after (params : Params) (constants : Constants)
    (N_max_top : Z) (k : nat) : Loop.Locals Point :=
  Loop.for_loop (push constants) (E_start params constants)
    (E_cycle params constants) (E_EoL_mup params)
    (E_single_shot constants) (survival params) k 1 N_max_top
    (Loop.declare Loop.fresh).

(** [function computeSeries(params, constants, N_max_top)]: every call runs
    in a new frame. *)
Definition computeSeries (params : Params) (constants : Constants)
    (N_max_top : Z) : Series :=
  fst (computeSeries_in Loop.fresh params constants N_max_top).
End App.
#[global] Arguments Constants num : clear implicits.
#[global] Arguments Params num : clear implicits.
#[global] Arguments Point num : clear implicits.
#[global] Arguments Series num : clear implicits.
End App.

(** ** The scenario dashboard with text inputs (part_000)

    The five scenario fields may hold a string (what the user typed) or a
    number (what a slider delivered); [parseFloat] is the engine's builtin
    and stays a parameter.  The constants and the returned object have the
    shape they have in src/App.jsx. *)

Module Part000.
Section Part000.
Context {num : Type} {NM : Number num}.
Variable parseFloat : string -> num.
#[local] Open Scope num_scope.

Inductive Value : Type :=
| Str (s : string)
| Num (x : num).

Record Params : Type := mkParams {
  E_manu_mup : Value;
  KM_ONE_WAY : Value;
  p_ret : Value;
  p_scr : Value;
  E_EoL_mup : Value
}.

(** [function toNum(v, fallback = 0)] *)
Definition toNum (v : Value) (fallback : num) : num :=
  let n := match v with Str s => parseFloat s | Num x => x end in
  if isFinite n then n else fallback.

(** [function computeSeries(params, constants, N_max_top)] *)
Definition computeSeries (params : Params) (constants : App.Constants num)
    (N_max_top : Z) : App.Series num :=
  let E_manu_mup := toNum (E_manu_mup params) zero in
  let KM_ONE_WAY := toNum (KM_ONE_WAY params) zero in
  let p_ret := js_min one (js_max zero (toNum (p_ret params) zero)) in
  let p_scr := js_min one (js_max zero (toNum (p_scr params) zero)) in
  let E_EoL_mup := toNum (E_EoL_mup params) zero in
  let T_FACTOR_PER_KM := App.T_FACTOR_PER_100KM constants / hundred in
  let E_fw := T_FACTOR_PER_KM * KM_ONE_WAY in
  let E_rev := T_FACTOR_PER_KM * KM_ONE_WAY in
  let E_mat_mup := App.m_Al_mup constants * App.EF_Al_prim constants in
  let E_start := E_mat_mup + E_manu_mup + App.E_fw_init constants in
  let E_cycle := App.E_clean constants + E_fw + App.E_use constants + E_rev in
  let q := p_ret * (one - p_scr) in
  let s :=
    Loop.run
      (fun N amort =>
         App.mkPoint N (amort * thousand)
           (App.E_single_shot constants * thousand))
      E_start E_cycle E_EoL_mup (App.E_single_shot constants) q
      N_max_top Loop.fresh in
  App.mkSeries (Loop.data s) q (E_cycle * thousand)
    (Loop.to_number (Loop.firstCost s) * thousand)
    (Loop.to_number (Loop.lastCost s) * thousand)
    (Loop.breakEven s).

(** The parameters as [computeSeries] reads them: every field through
    [toNum] with fallback 0. *)
Definition numeric (params : Params) : App.Params num :=
  App.mkParams (toNum (E_manu_mup params) zero)
    (toNum (KM_ONE_WAY params) zero) (toNum (p_ret params) zero)
    (toNum (p_scr params) zero) (toNum (E_EoL_mup params) zero).
End Part000.
#[global] Arguments Value num : clear implicits.
#[global] Arguments Params num : clear implicits.
#[global] Arguments Str {num}.
#[global] Arguments Num {num}.
End Part000.

(** ** The single-scenario page (part_001)

    [calc] is the callback given to [useMemo]; the state variables it closes
    over are its arguments here. *)

Module Part001.
Section Part001.
Context {num : Type} {NM : Number num}.
#[local] Open Scope num_scope.

(** [{ cycle: N, MUP: amort * 1000, SUP: E_single_shot * 1000,
       MinCycle: E_cycle * 1000 }] *)
Record ChartPoint : Type := mkChartPoint {
  cycle : Z;
  MUP : num;
  SUP : num;
  MinCycle : num
}.

(** The object returned by the callback. *)
Record Calc : Type := mkCalc {
  q : num;
  E_cycle : num;
  firstCost : option num;
  lastCost : option num;
  breakEven : option Z;
  chartData : list ChartPoint;
  g_single_shot : num;
  g_cycle : num
}.

(** [amort] of iteration [N] of the callback's loop. *)
Definition amort (constants : App.Constants num)
    (E_manu_mup KM_ONE_WAY p_ret p_scr E_EoL_mup : num) (N : Z) : num :=
  let T_FACTOR_PER_KM := App.T_FACTOR_PER_100KM constants / hundred in
  let E_fw := T_FACTOR_PER_KM * KM_ONE_WAY in
  let E_rev := T_FACTOR_PER_KM * KM_ONE_WAY in
  let E_mat_mup := App.m_Al_mup constants * App.EF_Al_prim constants in
  let E_start := E_mat_mup + E_manu_mup + App.E_fw_init constants in
  let E_cycle := App.E_clean constants + E_fw + App.E_use constants + E_rev in
  let q := p_ret * (one - p_scr) in
  Loop.amort E_start E_cycle E_EoL_mup q N.

Definition calc (constants : App.Constants num)
    (E_manu_mup KM_ONE_WAY p_ret p_scr E_EoL_mup : num) (N_max_top : Z)
  : Calc :=
  let T_FACTOR_PER_KM := App.T_FACTOR_PER_100KM constants / hundred in
  let E_fw := T_FACTOR_PER_KM * KM_ONE_WAY in
  let E_rev := T_FACTOR_PER_KM * KM_ONE_WAY in
  let E_mat_mup := App.m_Al_mup constants * App.EF_Al_prim constants in
  let E_start := E_mat_mup + E_manu_mup + App.E_fw_init constants in
  let E_cycle := App.E_clean constants + E_fw + App.E_use constants + E_rev in
  let q := p_ret * (one - p_scr) in
  let s :=
    Loop.run
      (fun N amort =>
         mkChartPoint N (amort * thousand)
           (App.E_single_shot constants * thousand) (E_cycle * thousand))
      E_start E_cycle E_EoL_mup (App.E_single_shot constants) q
      N_max_top Loop.fresh in
  mkCalc q E_cycle (Loop.firstCost s) (Loop.lastCost s) (Loop.breakEven s)
    (Loop.data s) (App.E_single_shot constants * thousand)
    (E_cycle * thousand).
End Part001.
#[global] Arguments ChartPoint num : clear implicits.
#[global] Arguments Calc num : clear implicits.
End Part001.

(** ** Binary64: the numbers of the engine *)

Module Binary64.
#[local] Open Scope float_scope.

(** [Math.min]: NaN if an argument is NaN, and -0 below +0. *)
Definition min (x y : float) : float :=
  if is_nan x || is_nan y then nan
  else if x <? y then x
  else if y <? x then y
  else if get_sign x then x else y.

(** [Math.max]: NaN if an argument is NaN, and +0 above -0. *)
Definition max (x y : float) : float :=
  if is_nan x || is_nan y then nan
  else if x <? y then y
  else if y <? x then x
  else if get_sign x then y else x.

(** An integer loop counter as a double (exact below 2^53). *)
Definition from_Z (z : Z) : float :=
  match z with
  | Z0 => 0
  | Zpos _ => of_uint63 (Uint63.of_Z z)
  | Zneg _ => - of_uint63 (Uint63.of_Z (- z))
  end.

(** The numbers, over a given implementation [pw] of [**]: ECMAScript fixes
    the result of [x ** N] only up to an implementation-chosen
    approximation. *)
Definition number (pw : float -> Z -> float) : Number float := {|
  zero := 0;
  one := 1;
  hundred := 100;
  thousand := 1000;
  add := PrimFloat.add;
  sub := PrimFloat.sub;
  mul := PrimFloat.mul;
  div := PrimFloat.div;
  pow := pw;
  js_min := min;
  js_max := max;
  leb := PrimFloat.leb;
  strict_eqb := PrimFloat.eqb;
  isFinite := is_finite;
  of_Z := from_Z
|}.

(** A power by repeated multiplication; [pow_mul x 1] is [x] itself. *)
Definition pow_mul (x : float) (N : Z) : float :=
  match N with
  | Z0 => 1
  | Zpos p => Pos.iter_op PrimFloat.mul p x
  | Zneg p => 1 / Pos.iter_op PrimFloat.mul p x
  end.

(** Decimal numerals without exponent part: spaces, a sign, digits, a point
    and digits; anything after them is ignored and no digit at all is NaN.
    The quotient below is the correctly rounded value, as [parseFloat]
    returns it, for numerals of at most 15 digits. *)
Definition digit_of (c : ascii) : option Z :=
  let n := Z.of_nat (nat_of_ascii c) in
  if ((48 <=? n) && (n <=? 57))%Z then Some (n - 48)%Z else None.

Fixpoint read_digits (s : string) (acc k : Z) : Z * Z * string :=
  match s with
  | String c s' =>
      match digit_of c with
      | Some d => read_digits s' (10 * acc + d)%Z (k + 1)%Z
      | None => (acc, k, s)
      end
  | EmptyString => (acc, k, s)
  end.

Fixpoint skip_spaces (s : string) : string :=
  match s with
  | String c s' => if Ascii.eqb c " " then skip_spaces s' else s
  | EmptyString => s
  end.

Definition parse_decimal (s : string) : float :=
  let s0 := skip_spaces s in
  let '(neg, s1) :=
    match s0 with
    | String c s' =>
        if Ascii.eqb c "-" then (true, s')
        else if Ascii.eqb c "+" then (false, s') else (false, s0)
    | EmptyString => (false, s0)
    end in
  let '(ip, ik, s2) := read_digits s1 0 0 in
  let '(fp, fk, _) :=
    match s2 with
    | String c s' =>
        if Ascii.eqb c "." then read_digits s' ip 0 else (ip, 0%Z, s2)
    | EmptyString => (ip, 0%Z, s2)
    end in
  if (ik + fk =? 0)%Z then nan
  else
    let v := from_Z fp / from_Z (10 ^ fk) in
    if neg then - v else v.
End Binary64.

(** The doubles with [pow_mul] for [**], to run the model. *)
Definition Binary64 : Number float := Binary64.number Binary64.pow_mul.
#[global] Existing Instance Binary64.

(** ** Exact: rational arithmetic

    Division by zero has the value 0 here, where the engine gives NaN or an
    infinity; the statements below that use [Exact] come with the proof that
    no divisor is zero. *)

Module Exact.
#[local] Open Scope Qc_scope.

Definition min (x y : Qc) : Qc := if Qle_bool x y then x else y.

Definition max (x y : Qc) : Qc := if Qle_bool x y then y else x.

Definition from_Z (z : Z) : Qc := Q2Qc (inject_Z z).

Definition power (x : Qc) (N : Z) : Qc :=
  match N with
  | Z0 => 1
  | Zpos p => x ^ Pos.to_nat p
  | Zneg p => / (x ^ Pos.to_nat p)
  end.

(** The decimal numeral [n / 10^k]. *)
Definition dec (n : Z) (k : positive) : Qc := Q2Qc (n # (10 ^ k)).

Definition number : Number Qc := {|
  zero := 0;
  one := 1;
  hundred := from_Z 100;
  thousand := from_Z 1000;
  add := Qcplus;
  sub := Qcminus;
  mul := Qcmult;
  div := Qcdiv;
  pow := power;
  js_min := min;
  js_max := max;
  leb := fun x y => Qle_bool x y;
  strict_eqb := Qc_eq_bool;
  isFinite := fun _ => true;
  of_Z := from_Z
|}.
End Exact.

Definition Exact : Number Qc := Exact.number.
#[global] Existing Instance Exact.

(** ** The documented engine, in the documentation's words (over [Qc]) *)

Module Doc.
#[local] Open Scope Qc_scope.

(** [clamp(x) = max(0, min(1, x))] *)
Definition clamp (x : Qc) : Qc := Exact.max 0 (Exact.min 1 x).

(** [U(N, q) = (1 - q^N) / (1 - q)] for [q <> 1], and [N] when [q = 1]. *)
Definition U (N : Z) (q : Qc) : Qc :=
  if Qc_eq_dec q 1 then Exact.from_Z N
  else (1 - q ^ Z.to_nat N) / (1 - q).

(** [q = clamp(return_probability) * (1 - clamp(scrap_probability))] *)
Definition survival_probability (params : App.Params Qc) : Qc :=
  clamp (App.p_ret params) * (1 - clamp (App.p_scr params)).

(** [start_cost = mass_per_unit * emission_factor_primary
                  + manufacturing_emissions + initial_logistics] *)
Definition start_cost (params : App.Params Qc) (constants : App.Constants Qc)
  : Qc :=
  App.m_Al_mup constants * App.EF_Al_prim constants
  + App.E_manu_mup params + App.E_fw_init constants.

(** [cycle_cost = cleaning_emissions + use_phase_emissions
                  + 2 * (transport_factor_per_100km / 100) * one_way_distance_km] *)
Definition cycle_cost (params : App.Params Qc) (constants : App.Constants Qc)
  : Qc :=
  App.E_clean constants + App.E_use constants
  + Exact.from_Z 2 * (App.T_FACTOR_PER_100KM constants / Exact.from_Z 100)
    * App.KM_ONE_WAY params.

(** [(start_cost + U(N,q) * cycle_cost + end_of_life_balance) / U(N,q)] *)
Definition amortized (params : App.Params Qc) (constants : App.Constants Qc)
    (N : Z) : Qc :=
  let u := U N (survival_probability params) in
  (start_cost params constants + u * cycle_cost params constants
   + App.E_EoL_mup params) / u.
End Doc.

(** ** The expected case of the documentation's section 8 *)

Module Expected.

Definition constants_f : App.Constants float :=
  App.mkConstants 0.00324%float 14.77%float 0.00037%float 0.00437%float
    0.0%float 0.001%float 0.00037%float.

Definition params_f : App.Params float :=
  App.mkParams 0.0008%float 300%float 0.95%float 0.02%float (-0.0015)%float.

Definition constants_q : App.Constants Qc :=
  App.mkConstants (Exact.dec 324 5) (Exact.dec 1477 2) (Exact.dec 37 5)
    (Exact.dec 437 5) (Exact.dec 0 1) (Exact.dec 1 3) (Exact.dec 37 5).

Definition params_q : App.Params Qc :=
  App.mkParams (Exact.dec 8 4) (Exact.from_Z 300) (Exact.dec 95 2)
    (Exact.dec 2 2) (Exact.dec (-15) 4).

Definition horizon : Z := 50.
End Expected.

(** ** The expected case with a NaN manufacturing value, as a number field
    that was cleared delivers it ([parseFloat] of the empty text) *)

Module NaNManufacturing.

Definition params : App.Params float :=
  App.mkParams nan 300%float 0.95%float 0.02%float (-0.0015)%float.
End NaNManufacturing.

(** ** The best case of src/App.jsx ([useState] of [best]) *)

Module Best.

Definition params_f : App.Params float :=
  App.mkParams 0.0006%float 100%float 1.0%float 0.00%float (-0.0001)%float.

Definition params_q : App.Params Qc :=
  App.mkParams (Exact.dec 6 4) (Exact.from_Z 100) (Exact.from_Z 1)
    (Exact.from_Z 0) (Exact.dec (-1) 4).
End Best.

(** ** The expected case of the text-input dashboard ([useState] of
    [expected]): three fields are text, the two sliders give numbers. *)

Module ExpectedText.

Definition params : Part000.Params float :=
  Part000.mkParams (Part000.Str "0.0008") (Part000.Str "300")
    (Part000.Num 0.95%float) (Part000.Num 0.02%float)
    (Part000.Str "0.0000").
End ExpectedText.

(** The finite values of the specification of binary64: zeros and finite
    numbers, neither NaN nor an infinity. *)
Definition SF_finite (x : spec_float) : bool :=
  match x with
  | S754_zero _ | S754_finite _ _ _ => true
  | _ => false
  end.

(** [be] is the first of the cycles 1..[h] that passes [test]: it passes and
    no earlier cycle does; it is [None] exactly when no cycle passes. *)
Definition first_crossing (test : Z -> bool) (h : Z) (be : option Z) : Prop :=
  (forall b, be = Some b ->
     1 <= b <= h /\ test b = true
     /\ forall N, 1 <= N < b -> test N = false)
  /\ (be = None <-> forall N, 1 <= N <= h -> test N = false)
  /\ (forall N, 1 <= N <= h -> test N = true ->
       exists b, be = Some b /\ b <= N).

(** The counter values [N], [N+1], ... of [k] consecutive iterations. *)
Fixpoint upfrom (N : Z) (k : nat) : list Z :=
  match k with
  | O => []
  | S k' => N :: upfrom (N + 1) k'
  end.

From Stdlib Require Import Permutation.

(** ** What the pages do with a result *)

(** The test [x ? ... : ...] (and [x && ...]) on a break-even value, which
    is [null] or a number: [null] and 0 are falsy. *)
Definition ToBoolean (be : option Z) : bool :=
  match be with
  | Some b => negb (b =? 0)
  | None => false
  end.

(** The number [n] that [toNum] of the text-input dashboard tests for
    finiteness: [typeof v === "string" ? parseFloat(v) : v]. *)
Definition read_value (parseFloat : string -> float)
    (v : Part000.Value float) : float :=
  match v with
  | Part000.Str s => parseFloat s
  | Part000.Num x => x
  end.

(** A value of a range slider with [min = 0] and [max = 1]: +0, or a number
    above 0 and not above 1. *)
Definition slider_value (x : float) : Prop :=
  x = 0%float \/ (PrimFloat.ltb 0 x = true /\ PrimFloat.ltb 1 x = false).

(** One of the five scenario parameters is NaN. *)
Definition has_nan (manu km pret pscr eol : float) : bool :=
  is_nan manu || is_nan km || is_nan pret || is_nan pscr || is_nan eol.

(** ** The chart rows of the scenario dashboards

    The [useMemo] callback that merges the three series by cycle (the same
    in src/App.jsx and in the text-input dashboard).  The [Map] is the list
    of its entries in insertion order; a row is the object with [cycle],
    [SUP] and the properties assigned by [row[key] = ...], in the order of
    their first assignment. *)

Module Chart.
Section Chart.
Context {num : Type}.

Record Row : Type := mkRow {
  cycle : Z;
  SUP : num;
  lines : list (string * num)
}.

(** [row[key] = v] on the assigned properties. *)
Fixpoint assign (key : string) (v : num) (props : list (string * num))
  : list (string * num) :=
  match props with
  | [] => [(key, v)]
  | (k, w) :: rest =>
      if String.eqb k key then (k, v) :: rest
      else (k, w) :: assign key v rest
  end.

(** [map.get(k)] *)
Fixpoint get (k : Z) (m : list (Z * Row)) : option Row :=
  match m with
  | [] => None
  | (k', r) :: rest => if k' =? k then Some r else get k rest
  end.

(** [map.set(k, r)]: an existing key keeps its place, a new one goes last. *)
Fixpoint set (k : Z) (r : Row) (m : list (Z * Row)) : list (Z * Row) :=
  match m with
  | [] => [(k, r)]
  | (k', r') :: rest =>
      if k' =? k then (k', r) :: rest else (k', r') :: set k r rest
  end.

(** The body of [arr.forEach((r) => { ... })] in [add(arr, key)]. *)
Definition add_point (key : string) (m : list (Z * Row))
    (r : App.Point num) : list (Z * Row) :=
  let row :=
    match get (App.cycle r) m with
    | Some row => row
    | None => mkRow (App.cycle r) (App.SUP_g r) []
    end in
  set (App.cycle r)
    (mkRow (cycle row) (SUP row) (assign key (App.MUP_g r) (lines row))) m.

(** [add(arr, key)] *)
Definition add (arr : list (App.Point num)) (key : string)
    (m : list (Z * Row)) : list (Z * Row) :=
  fold_left (add_point key) arr m.

(** [.sort((a, b) => a.cycle - b.cycle)]: the sort is stable and the
    comparison consistent, so the result is the one an insertion that keeps
    equal rows in their order computes. *)
Fixpoint insert (a : Row) (l : list Row) : list Row :=
  match l with
  | [] => [a]
  | b :: rest =>
      if cycle a - cycle b <=? 0 then a :: l else b :: insert a rest
  end.

Definition sort (l : list Row) : list Row := fold_right insert [] l.

(** The callback: the three [add]s, then the sorted values of the map. *)
Definition chartData (worst expected best : list (App.Point num))
  : list Row :=
  let map0 := [] in
  let map1 := add worst "MUP_Worst" map0 in
  let map2 := add expected "MUP_Expected" map1 in
  let map3 := add best "MUP_Best" map2 in
  sort (map snd map3).
End Chart.
#[global] Arguments Row num : clear implicits.
End Chart.

(** The map keeps one entry per cycle, and a row sits under its own
    cycle. *)
Definition well_keyed {num : Type} (m : list (Z * Chart.Row num)) : Prop :=
  NoDup (map fst m) /\ Forall (fun kr => Chart.cycle (snd kr) = fst kr) m.

(** ** The scenario cards of src/App.jsx

    The state of a scenario, the five [set] callbacks that [ScenarioCard]
    gives to its inputs, applied to the number [v] that [Num] and [Slider]
    pass on ([parseFloat(e.target.value)]), and what the card and the
    [useMemo] callbacks read from the state. *)

Module Card.
#[local] Open Scope float_scope.

Record State : Type := mkState {
  name : string;
  E_manu_mup : float;
  KM_ONE_WAY : float;
  p_ret : float;
  p_scr : float;
  E_EoL_mup : float;
  color : string
}.

Inductive Input : Type :=
| Manufacturing
| Distance
| ReturnRate
| ScrapRate
| EoLBalance.

(** [set(v)], that is [setState((s) => ({ ...s, field: ... }))]:
    [isNaN(v) ? 0 : v] for the three number fields, [v] for the sliders. *)
Definition change (i : Input) (v : float) (s : State) : State :=
  match i with
  | Manufacturing =>
      mkState (name s) (if is_nan v then 0 else v) (KM_ONE_WAY s) (p_ret s)
        (p_scr s) (E_EoL_mup s) (color s)
  | Distance =>
      mkState (name s) (E_manu_mup s) (if is_nan v then 0 else v) (p_ret s)
        (p_scr s) (E_EoL_mup s) (color s)
  | ReturnRate =>
      mkState (name s) (E_manu_mup s) (KM_ONE_WAY s) v (p_scr s)
        (E_EoL_mup s) (color s)
  | ScrapRate =>
      mkState (name s) (E_manu_mup s) (KM_ONE_WAY s) (p_ret s) v
        (E_EoL_mup s) (color s)
  | EoLBalance =>
      mkState (name s) (E_manu_mup s) (KM_ONE_WAY s) (p_ret s) (p_scr s)
        (if is_nan v then 0 else v) (color s)
  end.

(** The state after a sequence of changes, first change first. *)
Definition changes (evs : list (Input * float)) (s : State) : State :=
  fold_left (fun s ev => change (fst ev) (snd ev) s) evs s.

(** The object given to [computeSeries] by the [useMemo] callbacks. *)
Definition params (s : State) : App.Params float :=
  App.mkParams (E_manu_mup s) (KM_ONE_WAY s) (p_ret s) (p_scr s)
    (E_EoL_mup s).

(** The [q] shown on the card: [state.p_ret * (1 - state.p_scr)] (the
    result object is always there). *)
Definition shown_q (s : State) : float := p_ret s * (1 - p_scr s).

(** The three initial states. *)
Definition worst : State :=
  mkState "Worst Case" 0.0010 300 0.95 0.02 0.0001 "#ef4444".

Definition expected : State :=
  mkState "Expected Case" 0.0008 200 0.97 0.01 0.0 "#0ea5e9".

Definition best : State :=
  mkState "Best Case" 0.0006 100 1.0 0.00 (-0.0001) "#10b981".
End Card.

(** ** The text fields of src/unnamed/part_000

    What [Num] stores on leaving a field:
    [e.target.value.replace(",", ".").trim()].  A JavaScript string is the
    list of its UTF-16 code units. *)

Module Blur.
Definition jsstring : Type := list N.

Definition comma : N := 44.
Definition full_stop : N := 46.

(** The white space and line terminator code points, which [trim] strips;
    each is a single code unit. *)
Definition white_space : list N :=
  [9; 10; 11; 12; 13; 32; 160; 5760; 8192; 8193; 8194; 8195; 8196; 8197;
   8198; 8199; 8200; 8201; 8202; 8232; 8233; 8239; 8287; 12288; 65279]%N.

Definition is_white_space (c : N) : bool := existsb (N.eqb c) white_space.

(** [s.replace(",", ".")]: a string pattern replaces its first occurrence
    only. *)
Fixpoint replace (s : jsstring) : jsstring :=
  match s with
  | [] => []
  | c :: s' => if N.eqb c comma then full_stop :: s' else c :: replace s'
  end.

Fixpoint trimStart (s : jsstring) : jsstring :=
  match s with
  | [] => []
  | c :: s' => if is_white_space c then trimStart s' else s
  end.

Definition trimEnd (s : jsstring) : jsstring := rev (trimStart (rev s)).

Definition trim (s : jsstring) : jsstring := trimEnd (trimStart s).

(** [const normalized = e.target.value.replace(",", ".").trim()] *)
Definition normalized (value : jsstring) : jsstring := trim (replace value).

Definition commas (s : jsstring) : nat := count_occ N.eq_dec s comma.
End Blur.

(** * Properties *)

(** ** The counter values *)

Lemma upfrom_seq (a k : nat) :
  map Z.of_nat (seq a k) = upfrom (Z.of_nat a) k.
Proof.
  revert a; induction k as [|k IH]; intros a; simpl; [reflexivity|].
  f_equal. rewrite IH. f_equal. lia.
Qed.

Lemma cycles_upfrom (h : Z) : cycles h = upfrom 1 (Z.to_nat h).
Proof. unfold cycles. now rewrite upfrom_seq. Qed.

Lemma upfrom_length (N : Z) (k : nat) : List.length (upfrom N k) = k.
Proof. revert N; induction k; intros; simpl; congruence. Qed.

Lemma upfrom_In (k : nat) : forall N x,
  In x (upfrom N k) <-> N <= x < N + Z.of_nat k.
Proof.
  induction k as [|k IH]; intros N x; simpl.
  - lia.
  - rewrite IH. lia.
Qed.

Lemma upfrom_nth (k : nat) : forall N i,
  (i < k)%nat -> nth_error (upfrom N k) i = Some (N + Z.of_nat i).
Proof.
  induction k as [|k IH]; intros N i Hi; [lia|].
  destruct i as [|i]; simpl.
  - f_equal. lia.
  - rewrite IH by lia. f_equal. lia.
Qed.

Lemma upfrom_sorted (k : nat) : forall N, StronglySorted Z.lt (upfrom N k).
Proof.
  induction k as [|k IH]; intros N; simpl; constructor.
  - apply IH.
  - apply Forall_forall. intros x Hx. apply upfrom_In in Hx. lia.
Qed.

Lemma upfrom_last (k : nat) : forall N d,
  last (upfrom N (S k)) d = N + Z.of_nat k.
Proof.
  induction k as [|k IH]; intros N d.
  - simpl. lia.
  - change (upfrom N (S (S k))) with (N :: upfrom (N + 1) (S k)).
    change (last (N :: upfrom (N + 1) (S k)) d)
      with (last (upfrom (N + 1) (S k)) d).
    rewrite IH. lia.
Qed.



Lemma cycles_nil (h : Z) : h < 1 -> cycles h = [].
Proof.
  intros Hh. unfold cycles. replace (Z.to_nat h) with 0%nat by lia.
  reflexivity.
Qed.

(** The first counter value that passes a test: it passes, and no counter
    value before it does. *)
Lemma find_upfrom_Some (f : Z -> bool) (k : nat) : forall N b,
  find f (upfrom N k) = Some b ->
  N <= b < N + Z.of_nat k /\ f b = true /\
  forall x, N <= x < b -> f x = false.
Proof.
  induction k as [|k IH]; intros N b; simpl; [discriminate|].
  destruct (f N) eqn:HfN.
  - intros [= <-]. repeat split; try lia. exact HfN.
  - intros Hfind. destruct (IH _ _ Hfind) as (Hr & Hb & Hmin).
    repeat split; try lia; [exact Hb|].
    intros x Hx. destruct (Z.eq_dec x N) as [->|Hne]; [exact HfN|].
    apply Hmin. lia.
Qed.

Lemma find_upfrom_None (f : Z -> bool) (k : nat) (N : Z) :
  find f (upfrom N k) = None <->
  forall x, N <= x < N + Z.of_nat k -> f x = false.
Proof.
  split.
  - intros Hfind x Hx. apply (find_none _ _ Hfind). now apply upfrom_In.
  - intros Hall. destruct (find f (upfrom N k)) as [b|] eqn:Hfind; [|easy].
    destruct (find_upfrom_Some _ _ _ _ Hfind) as (Hr & Hb & _).
    rewrite (Hall b Hr) in Hb. discriminate.
Qed.

(** The result of [find] over the cycles is their first crossing. *)
Lemma find_first_crossing (test : Z -> bool) (h : Z) :
  first_crossing test h (find test (cycles h)).
Proof.
  rewrite cycles_upfrom. unfold first_crossing.
  refine (conj _ (conj _ _)).
  - intros b Hfind. apply find_upfrom_Some in Hfind.
    destruct Hfind as (Hr & Hb & Hmin). repeat split; try lia; assumption.
  - rewrite find_upfrom_None. split; intros H N HN; apply H; lia.
  - intros N HN HtN.
    destruct (find test (upfrom 1 (Z.to_nat h))) as [b|] eqn:Hfind.
    + exists b. split; [reflexivity|].
      apply find_upfrom_Some in Hfind. destruct Hfind as (_ & _ & Hmin).
      destruct (Z.le_gt_cases b N) as [Hle|Hgt]; [exact Hle|].
      rewrite (Hmin N) in HtN by lia. discriminate HtN.
    + pose proof (proj1 (find_upfrom_None _ _ _) Hfind N) as HN'.
      rewrite HN' in HtN by lia. discriminate HtN.
Qed.

(** ** The loop *)

Section LoopFacts.
Context {num : Type} {NM : Number num} {P : Type}.
Variable mkpoint : Z -> num -> P.
Variables E_start E_cycle E_EoL_mup E_single_shot q : num.

#[local] Abbreviation amort := (Loop.amort E_start E_cycle E_EoL_mup q).
#[local] Abbreviation body :=
  (Loop.body mkpoint E_start E_cycle E_EoL_mup E_single_shot q).
#[local] Abbreviation for_loop :=
  (Loop.for_loop mkpoint E_start E_cycle E_EoL_mup E_single_shot q).
#[local] Abbreviation run :=
  (Loop.run mkpoint E_start E_cycle E_EoL_mup E_single_shot q).
#[local] Abbreviation iterate l s0 :=
  (fold_left (fun s N => body N s) l s0).

(** With enough fuel the loop is the iteration of its body over the counter
    values up to [N_max_top]; it leaves through its guard. *)
Lemma for_loop_iterate (fuel : nat) : forall N h s,
  (Z.to_nat (h + 1 - N) <= fuel)%nat ->
  for_loop fuel N h s = iterate (upfrom N (Z.to_nat (h + 1 - N))) s.
Proof.
  induction fuel as [|fuel IH]; intros N h s Hfuel.
  - replace (Z.to_nat (h + 1 - N)) with 0%nat by lia. reflexivity.
  - simpl. destruct (Z.leb_spec N h) as [Hle|Hgt].
    + rewrite IH by lia.
      replace (Z.to_nat (h + 1 - N)) with (S (Z.to_nat (h + 1 - (N + 1))))
        by lia.
      reflexivity.
    + replace (Z.to_nat (h + 1 - N)) with 0%nat by lia. reflexivity.
Qed.


(** More fuel than [N_max_top] changes nothing: the loop has ended. *)
Lemma for_loop_fuel (fuel : nat) (h : Z) (s : Loop.Locals P) :
  (Z.to_nat h <= fuel)%nat ->
  for_loop fuel 1 h s = for_loop (Z.to_nat h) 1 h s.
Proof.
  intros Hfuel. rewrite !for_loop_iterate; [reflexivity| lia | lia].
Qed.

Lemma run_iterate (h : Z) (frame : Loop.Locals P) :
  run h frame = iterate (cycles h) Loop.fresh.
Proof.
  unfold Loop.run. rewrite for_loop_iterate by lia.
  rewrite cycles_upfrom. now replace (h + 1 - 1) with h by lia.
Qed.

Lemma iterate_data (l : list Z) : forall s,
  Loop.data (iterate l s)
  = Loop.data s ++ map (fun N => mkpoint N (amort N)) l.
Proof.
  induction l as [|N l IH]; intros s; simpl.
  - now rewrite app_nil_r.
  - rewrite IH. simpl. now rewrite <- app_assoc.
Qed.

Lemma iterate_firstCost (l : list Z) : forall s,
  Loop.firstCost (iterate l s)
  = match Loop.firstCost s with
    | Some c => Some c
    | None => hd_error (map amort l)
    end.
Proof.
  induction l as [|N l IH]; intros s; simpl.
  - now destruct (Loop.firstCost s).
  - rewrite IH. simpl. now destruct (Loop.firstCost s).
Qed.

Lemma iterate_lastCost (l : list Z) : forall s,
  Loop.lastCost (iterate l s)
  = match l with
    | [] => Loop.lastCost s
    | _ :: _ => Some (amort (last l 0))
    end.
Proof.
  induction l as [|N l IH]; intros s; [reflexivity|].
  cbn [fold_left]. rewrite IH. destruct l; reflexivity.
Qed.

Lemma iterate_breakEven (l : list Z) : forall s,
  Loop.breakEven (iterate l s)
  = match Loop.breakEven s with
    | Some b => Some b
    | None => find (fun N => leb (amort N) E_single_shot) l
    end.
Proof.
  induction l as [|N l IH]; intros s; simpl.
  - now destruct (Loop.breakEven s).
  - rewrite IH. simpl. destruct (Loop.breakEven s); [reflexivity|].
    now destruct (leb (amort N) E_single_shot).
Qed.

(** What the loop leaves in its four variables. *)
Lemma run_data (h : Z) (frame : Loop.Locals P) :
  Loop.data (run h frame) = map (fun N => mkpoint N (amort N)) (cycles h).
Proof. now rewrite run_iterate, iterate_data. Qed.

Lemma run_firstCost (h : Z) (frame : Loop.Locals P) :
  Loop.firstCost (run h frame) = hd_error (map amort (cycles h)).
Proof. now rewrite run_iterate, iterate_firstCost. Qed.

Lemma run_lastCost (h : Z) (frame : Loop.Locals P) :
  Loop.lastCost (run h frame)
  = match cycles h with [] => None | _ :: _ => Some (amort h) end.
Proof.
  rewrite run_iterate, iterate_lastCost, cycles_upfrom.
  destruct (Z.to_nat h) as [|k] eqn:Hk; [reflexivity|].
  rewrite upfrom_last. cbn [upfrom]. do 2 f_equal. lia.
Qed.

Lemma run_breakEven (h : Z) (frame : Loop.Locals P) :
  Loop.breakEven (run h frame)
  = find (fun N => leb (amort N) E_single_shot) (cycles h).
Proof. now rewrite run_iterate, iterate_breakEven. Qed.

End LoopFacts.

(** ** Exact arithmetic *)

Ltac qc_to_q :=
  repeat progress
    (unfold Qcle, Qclt, Qcplus, Qcminus, Qcmult, Qcopp, Qcdiv, Qcinv,
       Exact.from_Z in *;
     cbn [this Q2Qc] in *;
     rewrite ?Qred_correct in *).

Section ExactFacts.
#[local] Open Scope Qc_scope.

Lemma exact_eqb_true (x y : Qc) : strict_eqb x y = true <-> x = y.
Proof.
  cbn. split; [apply Qc_eq_bool_correct|].
  intros ->. unfold Qc_eq_bool. now destruct (Qc_eq_dec y y).
Qed.

Lemma exact_eqb_false (x y : Qc) : strict_eqb x y = false <-> x <> y.
Proof.
  rewrite <- exact_eqb_true. now destruct (strict_eqb x y).
Qed.


Lemma exact_sub_nonzero (q : Qc) : q <> 1 -> 1 - q <> 0.
Proof.
  intros Hq E. apply Hq.
  replace q with (1 - (1 - q)) by ring. rewrite E. ring.
Qed.

Lemma exact_min_spec (x y : Qc) :
  (x <= y /\ Exact.min x y = x) \/ (y < x /\ Exact.min x y = y).
Proof.
  unfold Exact.min. destruct (Qle_bool x y) eqn:E.
  - left. split; [now apply Qle_bool_iff|reflexivity].
  - right. split; [|reflexivity].
    apply Qcnot_le_lt. intros H. apply Qle_bool_iff in H. congruence.
Qed.

Lemma exact_max_spec (x y : Qc) :
  (x <= y /\ Exact.max x y = y) \/ (y < x /\ Exact.max x y = x).
Proof.
  unfold Exact.max. destruct (Qle_bool x y) eqn:E.
  - left. split; [now apply Qle_bool_iff|reflexivity].
  - right. split; [|reflexivity].
    apply Qcnot_le_lt. intros H. apply Qle_bool_iff in H. congruence.
Qed.

Ltac min_max_split t :=
  let E := fresh "E" in
  destruct t as [[? E]|[? E]]; rewrite ?E in *; clear E.

Ltac min_max_cases :=
  repeat match goal with
  | |- context [Exact.min ?a ?b] => min_max_split (exact_min_spec a b)
  | |- context [Exact.max ?a ?b] => min_max_split (exact_max_spec a b)
  | H : context [Exact.min ?a ?b] |- _ => min_max_split (exact_min_spec a b)
  | H : context [Exact.max ?a ?b] |- _ => min_max_split (exact_max_spec a b)
  end;
  first [ reflexivity
        | exfalso; qc_to_q; lra
        | apply Qcle_antisym; qc_to_q; lra
        | split; qc_to_q; lra ].

(** The clamp as the code writes it, [Math.min(1, Math.max(0, x))], is the
    documented [max(0, min(1, x))]. *)
Lemma clamp_code_doc (x : Qc) : js_min one (js_max zero x) = Doc.clamp x.
Proof.
  change (Exact.min 1 (Exact.max 0 x) = Exact.max 0 (Exact.min 1 x)).
  min_max_cases.
Qed.


Lemma clamp_id (x : Qc) : 0 <= x -> x <= 1 -> Doc.clamp x = x.
Proof. intros H0 H1. unfold Doc.clamp. min_max_cases. Qed.


(** The survival probability computed by [computeSeries] is the documented
    one and lies in [0,1], whatever the two probabilities given. *)
Lemma survival_doc (params : App.Params Qc) :
  App.survival params = Doc.survival_probability params.
Proof.
  unfold App.survival, Doc.survival_probability.
  now rewrite !clamp_code_doc.
Qed.


Lemma power_nat (q : Qc) (N : Z) :
  (0 <= N)%Z -> Exact.power q N = q ^ Z.to_nat N.
Proof. destruct N; intros HN; [reflexivity|reflexivity|lia]. Qed.





(** [U_eff_js] is the documented [U] on the counter values. *)
Lemma U_eff_js_doc (N : Z) (q : Qc) :
  (0 <= N)%Z -> Loop.U_eff_js N q = Doc.U N q.
Proof.
  intros HN. unfold Loop.U_eff_js, Doc.U.
  destruct (strict_eqb q one) eqn:E.
  - apply (exact_eqb_true q 1) in E.
    now destruct (Qc_eq_dec q 1).
  - apply (exact_eqb_false q 1) in E.
    destruct (Qc_eq_dec q 1); [contradiction|].
    cbn. now rewrite power_nat.
Qed.
End ExactFacts.

(** ** The three copies, over any interpretation of the numbers *)

Section EngineFacts.
Context {num : Type} {NM : Number num}.
#[local] Open Scope num_scope.

(** The break-even value left by the loop is the first counter value whose
    [amort] passes the test [amort <= E_single_shot]. *)
Lemma run_breakEven_first {P : Type} (mkpoint : Z -> num -> P)
    (E_start E_cycle E_EoL_mup E_single_shot q : num) (h : Z)
    (frame : Loop.Locals P) :
  first_crossing
    (fun N => leb (Loop.amort E_start E_cycle E_EoL_mup q N) E_single_shot)
    h
    (Loop.breakEven
       (Loop.run mkpoint E_start E_cycle E_EoL_mup E_single_shot q h frame)).
Proof. rewrite run_breakEven. apply find_first_crossing. Qed.

Lemma computeSeries_data (params : App.Params num)
    (constants : App.Constants num) (h : Z) :
  App.data (App.computeSeries params constants h)
  = map (fun N => App.push constants N (App.amort params constants N))
      (cycles h).
Proof. unfold App.computeSeries, App.computeSeries_in. cbn [fst App.data].
  now rewrite run_data. Qed.

Lemma computeSeries_entry (params : App.Params num)
    (constants : App.Constants num) (h N : Z) :
  (1 <= N <= h)%Z ->
  nth_error (App.data (App.computeSeries params constants h))
    (Z.to_nat (N - 1))
  = Some (App.push constants N (App.amort params constants N)).
Proof.
  intros HN. rewrite computeSeries_data, nth_error_map, cycles_upfrom.
  rewrite upfrom_nth by lia.
  replace (1 + Z.of_nat (Z.to_nat (N - 1)))%Z with N by lia. reflexivity.
Qed.


(** When all the iterations have run, these are the variables the call
    ends with. *)
Lemma locals_after_all (params : App.Params num)
    (constants : App.Constants num) (h : Z) (frame : Loop.Locals _) :
  App.locals_after params constants h (Z.to_nat h)
  = snd (App.computeSeries_in frame params constants h).
Proof. reflexivity. Qed.

Lemma computeSeries_firstCost_g (params : App.Params num)
    (constants : App.Constants num) (h : Z) :
  (1 <= h)%Z ->
  App.firstCost_g (App.computeSeries params constants h)
  = App.amort params constants 1 * thousand.
Proof.
  intros Hh. unfold App.computeSeries, App.computeSeries_in.
  cbn [fst App.firstCost_g]. rewrite run_firstCost, cycles_upfrom.
  destruct (Z.to_nat h) as [|k] eqn:Hk; [lia|]. reflexivity.
Qed.

Lemma computeSeries_lastCost_g (params : App.Params num)
    (constants : App.Constants num) (h : Z) :
  (1 <= h)%Z ->
  App.lastCost_g (App.computeSeries params constants h)
  = App.amort params constants h * thousand.
Proof.
  intros Hh. unfold App.computeSeries, App.computeSeries_in.
  cbn [fst App.lastCost_g]. rewrite run_lastCost, cycles_upfrom.
  destruct (Z.to_nat h) as [|k] eqn:Hk; [lia|]. reflexivity.
Qed.

(** The text-input copy is the copy of src/App.jsx run on the parameters
    read through [toNum]. *)
Lemma computeSeries_numeric (parseFloat : string -> num)
    (params : Part000.Params num) (constants : App.Constants num) (h : Z) :
  Part000.computeSeries parseFloat params constants h
  = App.computeSeries (Part000.numeric parseFloat params) constants h.
Proof. reflexivity. Qed.

Lemma calc_chartData (constants : App.Constants num)
    (manu km pret pscr eol : num) (h : Z) :
  map Part001.cycle
    (Part001.chartData (Part001.calc constants manu km pret pscr eol h))
  = cycles h.
Proof.
  unfold Part001.calc. cbn [Part001.chartData]. rewrite run_data, map_map.
  cbn. apply map_id.
Qed.

Lemma calc_entry (constants : App.Constants num)
    (manu km pret pscr eol : num) (h N : Z) :
  (1 <= N <= h)%Z ->
  nth_error
    (Part001.chartData (Part001.calc constants manu km pret pscr eol h))
    (Z.to_nat (N - 1))
  = Some
      (Part001.mkChartPoint N
         (Part001.amort constants manu km pret pscr eol N * thousand)
         (App.E_single_shot constants * thousand)
         (Part001.E_cycle (Part001.calc constants manu km pret pscr eol h)
          * thousand)).
Proof.
  intros HN. unfold Part001.calc. cbn [Part001.chartData Part001.E_cycle].
  rewrite run_data, nth_error_map, cycles_upfrom.
  rewrite upfrom_nth by lia.
  replace (1 + Z.of_nat (Z.to_nat (N - 1)))%Z with N by lia. reflexivity.
Qed.

Lemma computeSeries_empty (params : App.Params num)
    (constants : App.Constants num) (h : Z) :
  (h < 1)%Z ->
  App.computeSeries params constants h
  = App.mkSeries [] (App.survival params)
      (App.E_cycle params constants * thousand)
      (Loop.to_number None * thousand) (Loop.to_number None * thousand)
      None.
Proof.
  intros Hh. unfold App.computeSeries, App.computeSeries_in. cbn [fst].
  rewrite run_iterate, cycles_nil by assumption. reflexivity.
Qed.
End EngineFacts.

(** ** Break-even, shape of the series, determinism, empty horizon *)

(** C4.  The break-even cycle reported by [computeSeries] (src/App.jsx) and
    by the single-scenario callback, when present, lies in 1..horizon, its
    amortized value is [<=] the single-use reference, and no earlier cycle
    has that property: the first crossing is kept through the later
    iterations.  The result is [null] ([None]), never a number, exactly when
    no cycle of 1..horizon has the property. *)
Theorem breakEven_first_crossing {num : Type} {NM : Number num}
    (params : App.Params num) (constants : App.Constants num)
    (manu km pret pscr eol : num) (h : Z) :
  first_crossing
    (fun N =>
       leb (App.amort params constants N) (App.E_single_shot constants))
    h (App.breakEven (App.computeSeries params constants h))
  /\ first_crossing
       (fun N =>
          leb (Part001.amort constants manu km pret pscr eol N)
            (App.E_single_shot constants))
       h (Part001.breakEven (Part001.calc constants manu km pret pscr eol h)).
Proof.
  split.
  - unfold App.computeSeries, App.computeSeries_in, App.amort.
    cbn [fst App.breakEven]. apply run_breakEven_first.
  - unfold Part001.calc, Part001.amort. cbn [Part001.breakEven].
    apply run_breakEven_first.
Qed.

(** The best case of src/App.jsx breaks even at cycle 19 of 50, and at no
    cycle before. *)
Lemma breakEven_first_crossing_witness :
  App.breakEven
    (@App.computeSeries float Binary64 Best.params_f Expected.constants_f 50)
  = Some 19
  /\ leb (@App.amort float Binary64 Best.params_f Expected.constants_f 19)
       (App.E_single_shot Expected.constants_f) = true
  /\ forall N, 1 <= N < 19 ->
       leb (@App.amort float Binary64 Best.params_f Expected.constants_f N)
         (App.E_single_shot Expected.constants_f) = false.
Proof.
  assert (E : App.breakEven
                (@App.computeSeries float Binary64 Best.params_f
                   Expected.constants_f 50) = Some 19)
    by (vm_compute; reflexivity).
  destruct (@breakEven_first_crossing float Binary64 Best.params_f
              Expected.constants_f 0%float 0%float 0%float 0%float
              0%float 50) as [(Hfirst & _) _].
  destruct (Hfirst 19 E) as (_ & Hb & Hmin).
  exact (conj E (conj Hb Hmin)).
Defined.

(** C5.  For a horizon [h >= 1] the series returned by [computeSeries] has
    exactly [h] entries, their [cycle] fields are 1, 2, ..., [h] in this
    order (strictly increasing), and every entry carries the same
    single-use reference, [E_single_shot * 1000]. *)
Theorem series_shape {num : Type} {NM : Number num}
    (params : App.Params num) (constants : App.Constants num) (h : Z) :
  1 <= h ->
  let series := App.data (App.computeSeries params constants h) in
  Z.of_nat (List.length series) = h
  /\ map App.cycle series = cycles h
  /\ (forall i, 0 <= i < h ->
        nth_error (map App.cycle series) (Z.to_nat i) = Some (i + 1))
  /\ StronglySorted Z.lt (map App.cycle series)
  /\ Forall
       (fun pt => App.SUP_g pt = mul (App.E_single_shot constants) thousand)
       series.
Proof.
  intros Hh series.
  assert (Hc : map App.cycle series = cycles h).
  { unfold series. rewrite computeSeries_data, map_map. cbn. apply map_id. }
  repeat split.
  - rewrite <- (length_map App.cycle), Hc, cycles_upfrom, upfrom_length. lia.
  - exact Hc.
  - intros i Hi. rewrite Hc, cycles_upfrom, upfrom_nth by lia. f_equal. lia.
  - rewrite Hc, cycles_upfrom. apply upfrom_sorted.
  - unfold series. rewrite computeSeries_data.
    apply Forall_forall. intros pt Hpt. apply in_map_iff in Hpt.
    destruct Hpt as (N & <- & _). reflexivity.
Qed.

Lemma series_shape_witness :
  Z.of_nat
    (List.length
       (App.data
          (@App.computeSeries float Binary64 Expected.params_f
             Expected.constants_f Expected.horizon))) = 50
  /\ map App.cycle
       (App.data
          (@App.computeSeries float Binary64 Expected.params_f
             Expected.constants_f Expected.horizon)) = cycles 50.
Proof.
  pose proof (@series_shape float Binary64 Expected.params_f
                Expected.constants_f Expected.horizon) as H.
  assert (Hh : 1 <= Expected.horizon) by (unfold Expected.horizon; lia).
  destruct (H Hh) as (H1 & H2 & _).
  exact (conj H1 H2).
Defined.



(** C10.  For a horizon below 1 [computeSeries] (src/App.jsx and the
    text-input copy) raises nothing: the loop body is never run, the series
    is empty, the break-even is [null], and the two costs are computed from
    the [null] accumulators, [null * 1000]. *)
Theorem computeSeries_horizon_below_one {num : Type} {NM : Number num}
    (parseFloat : string -> num) (params : App.Params num)
    (text_params : Part000.Params num) (constants : App.Constants num)
    (h : Z) :
  h < 1 ->
  App.computeSeries params constants h
  = App.mkSeries [] (App.survival params)
      (mul (App.E_cycle params constants) thousand)
      (mul (Loop.to_number None) thousand)
      (mul (Loop.to_number None) thousand) None
  /\ Part000.computeSeries parseFloat text_params constants h
     = App.mkSeries []
         (App.survival (Part000.numeric parseFloat text_params))
         (mul (App.E_cycle (Part000.numeric parseFloat text_params)
                 constants) thousand)
         (mul (Loop.to_number None) thousand)
         (mul (Loop.to_number None) thousand) None.
Proof.
  intros Hh. split.
  - now apply computeSeries_empty.
  - rewrite computeSeries_numeric. now apply computeSeries_empty.
Qed.

(** With doubles the two costs are [0]: ToNumber(null) * 1000. *)
Lemma computeSeries_horizon_below_one_witness :
  @App.computeSeries float Binary64 Expected.params_f Expected.constants_f 0
  = App.mkSeries [] 0.93099999999999994%float 3.2199999999999998%float
      0%float 0%float None
  /\ App.data
       (@Part000.computeSeries float Binary64 Binary64.parse_decimal
          ExpectedText.params Expected.constants_f 0) = [].
Proof.
  destruct (@computeSeries_horizon_below_one float Binary64
              Binary64.parse_decimal Expected.params_f ExpectedText.params
              Expected.constants_f 0 ltac:(lia)) as [H1 H2].
  split.
  - rewrite H1. vm_compute. reflexivity.
  - rewrite H2. reflexivity.
Defined.

(** ** The effective utilization and the amortized value, exactly *)

Section ExactEngine.
#[local] Open Scope Qc_scope.





Lemma E_cycle_doc (params : App.Params Qc) (constants : App.Constants Qc) :
  App.E_cycle params constants = Doc.cycle_cost params constants.
Proof.
  unfold App.E_cycle, App.E_fw, App.E_rev, App.T_FACTOR_PER_KM,
    Doc.cycle_cost.
  cbn [add mul div hundred Exact Exact.number].
  replace (Exact.from_Z 2) with (1 + 1) by (now apply Qc_is_canon).
  field. intros E. apply (f_equal this) in E. discriminate E.
Qed.

Lemma amort_doc (params : App.Params Qc) (constants : App.Constants Qc)
    (N : Z) :
  (0 <= N)%Z ->
  App.amort params constants N = Doc.amortized params constants N.
Proof.
  intros HN. unfold App.amort, Loop.amort, Doc.amortized.
  rewrite U_eff_js_doc, survival_doc, E_cycle_doc by assumption.
  reflexivity.
Qed.

(** For probabilities in [0,1], as the two sliders deliver them, the
    callback's [amort] is the documented amortized value. *)
Lemma calc_amortized_in_range (constants : App.Constants Qc)
    (manu km pret pscr eol : Qc) (N : Z) :
  0 <= pret -> pret <= 1 -> 0 <= pscr -> pscr <= 1 -> (0 <= N)%Z ->
  Part001.amort constants manu km pret pscr eol N
  = Doc.amortized (App.mkParams manu km pret pscr eol) constants N.
Proof.
  intros Hr0 Hr1 Hs0 Hs1 HN.
  rewrite <- amort_doc by assumption.
  unfold Part001.amort, App.amort, App.survival.
  cbn [App.p_ret App.p_scr App.E_EoL_mup].
  rewrite !clamp_code_doc, !clamp_id by assumption.
  reflexivity.
Qed.

End ExactEngine.





(** ** The loop counter as a double

    [PrimFloat.of_uint63] is specified by [binary_normalize]; rounding an
    integer below 2^63 to 53 bits ends at an exponent of at most 11, far
    from the overflow threshold. *)

Lemma digits2_pos_size (p : positive) : digits2_pos p = Pos.size p.
Proof. induction p; simpl; congruence. Qed.

Lemma Zdigits2_log2 (m : Z) : 0 < m -> Zdigits2 m = Z.log2 m + 1.
Proof.
  destruct m as [|p|p]; try lia. intros _. simpl.
  rewrite digits2_pos_size. destruct p; simpl; lia.
Qed.

Lemma Zdigits2_mono (a b : Z) : 0 <= a <= b -> Zdigits2 a <= Zdigits2 b.
Proof.
  intros [Ha Hab]. destruct (Z.eq_dec a 0) as [->|Hne].
  - destruct b; simpl; lia.
  - rewrite !Zdigits2_log2 by lia.
    pose proof (Z.log2_le_mono a b Hab). lia.
Qed.

Lemma Zdigits2_succ (a : Z) : 0 <= a -> Zdigits2 (a + 1) <= Zdigits2 a + 1.
Proof.
  intros Ha. destruct (Z.eq_dec a 0) as [->|Hne]; [simpl; lia|].
  rewrite !Zdigits2_log2 by lia.
  pose proof (Z.log2_succ_le a). unfold Z.succ in *. lia.
Qed.

Lemma digits2_pos_iter_xO (d p : positive) :
  Zpos (digits2_pos (Pos.iter xO p d)) = Zpos (digits2_pos p) + Zpos d.
Proof.
  induction d as [|d IH] using Pos.peano_ind.
  - simpl. lia.
  - rewrite Pos.iter_succ. simpl. lia.
Qed.

Lemma shr_1_bound (mrs : shr_record) :
  0 <= shr_m mrs -> 0 <= shr_m (shr_1 mrs) <= shr_m mrs.
Proof.
  destruct mrs as [m r s]. destruct m as [|[p|p|]|p]; simpl; lia.
Qed.

Lemma iter_shr_1_bound (n : positive) : forall mrs,
  0 <= shr_m mrs -> 0 <= shr_m (iter_pos shr_1 n mrs) <= shr_m mrs.
Proof.
  induction n as [n IH|n IH|]; intros mrs Hm; simpl.
  - pose proof (shr_1_bound mrs Hm) as H1.
    pose proof (IH (shr_1 mrs) ltac:(lia)) as H2.
    pose proof (IH (iter_pos shr_1 n (shr_1 mrs)) ltac:(lia)) as H3. lia.
  - pose proof (IH mrs Hm) as H2.
    pose proof (IH (iter_pos shr_1 n mrs) ltac:(lia)) as H3. lia.
  - now apply shr_1_bound.
Qed.

Lemma shr_fexp_bound (m e : Z) (l : location) :
  0 <= m ->
  0 <= shr_m (fst (shr_fexp prec emax m e l)) <= m
  /\ (snd (shr_fexp prec emax m e l) = e
      \/ snd (shr_fexp prec emax m e l) = fexp prec emax (Zdigits2 m + e)).
Proof.
  intros Hm. unfold shr_fexp, shr.
  assert (E : shr_m (shr_record_of_loc m l) = m)
    by (now destruct l as [|[]]).
  destruct (fexp prec emax (Zdigits2 m + e) - e) as [|n|n] eqn:En;
    cbn [fst snd]; rewrite ?E.
  - split; [lia|now left].
  - split; [|right; lia].
    pose proof (iter_shr_1_bound n (shr_record_of_loc m l)) as H.
    rewrite E in H. now apply H.
  - split; [lia|now left].
Qed.

Lemma round_nearest_even_bound (m : Z) (l : location) :
  m <= round_nearest_even m l <= m + 1.
Proof.
  destruct l as [|[]]; simpl; try lia. destruct (Z.even m); lia.
Qed.

Lemma binary_round_finite (p : positive) :
  Zpos (digits2_pos p) <= 64 ->
  SF_finite (binary_round prec emax false p 0) = true.
Proof.
  intros Hd. unfold binary_round.
  set (ex := fexp prec emax (Zpos (digits2_pos p) + 0)).
  assert (Hex : -52 <= ex <= 11).
  { unfold ex, fexp, emin, prec, emax.
    pose proof (Pos2Z.is_pos (digits2_pos p)). lia. }
  assert (Ha : exists mz ez,
             shl_align p 0 ex = (mz, ez)
             /\ -52 <= ez <= 0
             /\ Zdigits2 (Zpos mz) + ez = Zpos (digits2_pos p)).
  { unfold shl_align. destruct (ex - 0) as [|d|d] eqn:Ed.
    - exists p, 0. simpl. repeat split; lia.
    - exists p, 0. simpl. repeat split; lia.
    - exists (Pos.iter xO p d), ex. split; [reflexivity|]. split; [lia|].
      cbn [Zdigits2]. rewrite digits2_pos_iter_xO. lia. }
  destruct Ha as (mz & ez & -> & Hez & HD).
  unfold binary_round_aux.
  pose proof (shr_fexp_bound (Zpos mz) ez loc_Exact ltac:(lia)) as [Hm1 He1].
  destruct (shr_fexp prec emax (Zpos mz) ez loc_Exact) as [mrs' e'].
  cbn [fst snd] in Hm1, He1.
  set (mr := round_nearest_even (shr_m mrs') (loc_of_shr_record mrs')).
  pose proof (round_nearest_even_bound (shr_m mrs')
                (loc_of_shr_record mrs')) as Hr.
  fold mr in Hr.
  pose proof (shr_fexp_bound mr e' loc_Exact ltac:(lia)) as [Hm2 He2].
  destruct (shr_fexp prec emax mr e' loc_Exact) as [mrs'' e''].
  cbn [fst snd] in Hm2, He2.
  assert (He' : -52 <= e' <= 11).
  { destruct He1 as [->| ->]; [lia|]. rewrite HD.
    unfold fexp, emin, prec, emax. lia. }
  assert (Hdr : Zdigits2 mr <= 64 + 52 + 1).
  { pose proof (Zdigits2_mono mr (Zpos mz + 1) ltac:(lia)).
    pose proof (Zdigits2_succ (Zpos mz) ltac:(lia)). lia. }
  assert (Hdr0 : 0 <= Zdigits2 mr) by (destruct mr; simpl; lia).
  assert (He'' : e'' <= 971).
  { destruct He2 as [->| ->]; [lia|]. unfold fexp, emin, prec, emax. lia. }
  destruct (shr_m mrs'') as [|m|m]; [reflexivity| |lia].
  replace (e'' <=? emax - prec) with true; [reflexivity|].
  symmetry. apply Z.leb_le. unfold emax, prec. lia.
Qed.

Lemma SF_finite_is_finite (x : float) :
  SF_finite (Prim2SF x) = true -> is_finite x = true.
Proof.
  intros H. unfold is_finite, is_nan, is_infinity.
  rewrite !FloatAxioms.eqb_spec, FloatAxioms.abs_spec.
  destruct (Prim2SF x) as [s| | |s m e]; try discriminate H.
  - reflexivity.
  - unfold SFeqb. simpl. rewrite Z.compare_refl, Pos.compare_cont_refl.
    now destruct s.
Qed.

Lemma of_uint63_finite (n : int) : is_finite (of_uint63 n) = true.
Proof.
  apply SF_finite_is_finite. rewrite of_uint63_spec.
  pose proof (Uint63.to_Z_bounded n) as Hb.
  destruct (to_Z n) as [|p|p] eqn:E; simpl; [reflexivity| |lia].
  apply binary_round_finite.
  change (Zpos (digits2_pos p)) with (Zdigits2 (Zpos p)).
  rewrite Zdigits2_log2 by lia.
  assert (Z.log2 (Zpos p) < 63); [|lia].
  apply Z.log2_lt_pow2; [lia|]. unfold wB in Hb. simpl in Hb. lia.
Qed.

(** The loop counter is a finite double. *)
Lemma from_Z_finite (N : Z) : is_finite (Binary64.from_Z N) = true.
Proof.
  destruct N as [|p|p]; cbn [Binary64.from_Z].
  - reflexivity.
  - apply of_uint63_finite.
  - apply SF_finite_is_finite. rewrite FloatAxioms.opp_spec.
    pose proof (of_uint63_finite (Uint63.of_Z (- Z.neg p))) as H.
    unfold is_finite, is_nan, is_infinity in H.
    rewrite !FloatAxioms.eqb_spec, FloatAxioms.abs_spec in H.
    destruct (Prim2SF (of_uint63 (Uint63.of_Z (- Z.neg p))))
      as [s|s| |s m e]; try reflexivity.
    + destruct s; discriminate H.
    + discriminate H.
Qed.

(** ** The special case [q === 1] *)

(** Whatever the numbers are, when [q === 1] holds [U_eff_js] returns the
    counter it was given: no subtraction, power or division is evaluated. *)
Lemma U_eff_js_special_case {num : Type} {NM : Number num} (N : Z) (q : num) :
  strict_eqb q one = true -> Loop.U_eff_js N q = of_Z N.
Proof. intros E. unfold Loop.U_eff_js. now rewrite E. Qed.

(** C2.  [U(N, q) = (1 - q^N) / (1 - q)] for [q <> 1], and [U(N, 1) = N]
    exactly: the case [q = 1] is a branch of its own that returns the counter
    [N] without evaluating the closed form, so that with doubles, whatever
    the implementation of [**], the result is the counter, a finite number,
    and not the NaN of [0 / 0]. *)
Theorem U_eff_js_closed_form (N : Z) (q : Qc)
    (pw : float -> Z -> float) :
  1 <= N ->
  (q <> 1%Qc ->
   (1 - q)%Qc <> 0%Qc
   /\ Loop.U_eff_js N q = ((1 - q ^ Z.to_nat N) / (1 - q))%Qc)
  /\ Loop.U_eff_js N 1%Qc = Exact.from_Z N
  /\ @Loop.U_eff_js float (Binary64.number pw) N 1%float
     = Binary64.from_Z N
  /\ is_finite (@Loop.U_eff_js float (Binary64.number pw) N 1%float)
     = true.
Proof.
  intros HN. refine (conj _ (conj _ (conj _ _))).
  - intros Hq. split; [now apply exact_sub_nonzero|].
    rewrite U_eff_js_doc by lia. unfold Doc.U.
    destruct (Qc_eq_dec q 1); [contradiction|reflexivity].
  - apply (@U_eff_js_special_case Qc Exact). now apply exact_eqb_true.
  - now apply (@U_eff_js_special_case float (Binary64.number pw)).
  - rewrite (@U_eff_js_special_case float (Binary64.number pw)) by easy.
    apply from_Z_finite.
Qed.

Lemma U_eff_js_closed_form_witness :
  Loop.U_eff_js 3 (Exact.dec 5 1) = Exact.dec 175 2
  /\ Loop.U_eff_js 3 1%Qc = Exact.from_Z 3
  /\ @Loop.U_eff_js float Binary64 3 1%float = 3%float.
Proof.
  destruct (U_eff_js_closed_form 3 (Exact.dec 5 1) Binary64.pow_mul
              ltac:(lia)) as (H1 & H2 & H3 & _).
  refine (conj _ (conj _ _)).
  - assert (Hq : Exact.dec 5 1 <> 1%Qc)
      by (intros E; apply (f_equal this) in E; discriminate E).
    rewrite (proj2 (H1 Hq)). now apply Qc_is_canon.
  - exact H2.
  - exact H3.
Defined.

(** ** Clamping of the two probabilities *)

Section Clamping.
Variable pw : float -> Z -> float.


End Clamping.

(** On doubles the two ways of writing the clamp agree on NaN, the
    infinities, the two zeros and values inside, on and outside the
    bounds. *)
Lemma clamp_forms_agree_on_doubles :
  map (fun x => Binary64.min 1 (Binary64.max 0 x))
    [nan; infinity; neg_infinity; 0; -0; 0.5; 1; 1.5; -2]%float
  = map (fun x => Binary64.max 0 (Binary64.min 1 x))
      [nan; infinity; neg_infinity; 0; -0; 0.5; 1; 1.5; -2]%float.
Proof. vm_compute. reflexivity. Qed.


(** The single-scenario callback multiplies the probabilities as they
    are. *)
Lemma calc_q {num : Type} {NM : Number num} (constants : App.Constants num)
    (manu km pret pscr eol : num) (h : Z) :
  Part001.q (Part001.calc constants manu km pret pscr eol h)
  = mul pret (sub one pscr).
Proof. reflexivity. Qed.




(** ** Non-finite parameters *)

Section NonFinite.
Variable pw : float -> Z -> float.
Variable parseFloat : string -> float.

#[local] Abbreviation toNum :=
  (@Part000.toNum float (Binary64.number pw) parseFloat).
#[local] Abbreviation computeSeries_text :=
  (@Part000.computeSeries float (Binary64.number pw) parseFloat).

(** [toNum] with fallback 0 always returns a finite number. *)
Lemma toNum_finite (v : Part000.Value float) :
  is_finite (toNum v 0%float) = true.
Proof.
  unfold Part000.toNum. cbn [isFinite Binary64.number].
  destruct v as [s|x].
  - destruct (is_finite (parseFloat s)) eqn:E; [exact E|reflexivity].
  - destruct (is_finite x) eqn:E; [exact E|reflexivity].
Qed.

(** A NaN or an infinity given as a number is read as 0, and so is a text
    that [parseFloat] does not turn into a finite number. *)
Lemma toNum_non_finite (x : float) :
  is_finite x = false -> toNum (Part000.Num x) 0%float = 0%float.
Proof.
  intros E. unfold Part000.toNum. cbn [isFinite Binary64.number].
  now rewrite E.
Qed.

Lemma toNum_unparsable (s : string) :
  is_finite (parseFloat s) = false ->
  toNum (Part000.Str s) 0%float = 0%float.
Proof.
  intros E. unfold Part000.toNum. cbn [isFinite Binary64.number].
  now rewrite E.
Qed.

Lemma toNum_zero : toNum (Part000.Num 0%float) 0%float = 0%float.
Proof. reflexivity. Qed.

(** The result depends on the five fields through [toNum] only. *)
Lemma computeSeries_text_ext (p p' : Part000.Params float)
    (constants : App.Constants float) (h : Z) :
  Part000.numeric (NM := Binary64.number pw) parseFloat p
  = Part000.numeric (NM := Binary64.number pw) parseFloat p' ->
  computeSeries_text p constants h = computeSeries_text p' constants h.
Proof. intros E. now rewrite !computeSeries_numeric, E. Qed.
End NonFinite.

(** The texts of the expected case are read as the doubles of the same
    numerals: the text-input copy returns what the copy of src/App.jsx
    returns on the numbers. *)
Lemma computeSeries_text_expected :
  @Part000.computeSeries float Binary64 Binary64.parse_decimal
    ExpectedText.params Expected.constants_f Expected.horizon
  = @App.computeSeries float Binary64
      (App.mkParams 0.0008%float 300%float 0.95%float 0.02%float 0%float)
      Expected.constants_f Expected.horizon.
Proof. vm_compute. reflexivity. Qed.

(** C7, as the code has it.  No copy of the engine raises an error on a
    non-finite parameter.  The text-input dashboard reads each of the five
    parameters through [toNum], whose result is always finite: a NaN or an
    infinite number, and a text that does not parse to a finite number, are
    replaced by 0, and the result is the one computed with 0 in that
    field. *)
Theorem toNum_replaces_non_finite (pw : float -> Z -> float)
    (parseFloat : string -> float) (x : float)
    (p : Part000.Params float) (constants : App.Constants float) (h : Z) :
  is_finite x = false ->
  (forall v,
     is_finite (@Part000.toNum float (Binary64.number pw) parseFloat v
                  0%float) = true)
  /\ @Part000.toNum float (Binary64.number pw) parseFloat (Part000.Num x)
       0%float = 0%float
  /\ (forall s, is_finite (parseFloat s) = false ->
        @Part000.toNum float (Binary64.number pw) parseFloat
          (Part000.Str s) 0%float = 0%float)
  /\ @Part000.computeSeries float (Binary64.number pw) parseFloat
       (Part000.mkParams (Part000.Num x) (Part000.KM_ONE_WAY p)
          (Part000.p_ret p) (Part000.p_scr p) (Part000.E_EoL_mup p))
       constants h
     = @Part000.computeSeries float (Binary64.number pw) parseFloat
         (Part000.mkParams (Part000.Num 0%float) (Part000.KM_ONE_WAY p)
            (Part000.p_ret p) (Part000.p_scr p) (Part000.E_EoL_mup p))
         constants h
  /\ @Part000.computeSeries float (Binary64.number pw) parseFloat
       (Part000.mkParams (Part000.E_manu_mup p) (Part000.Num x)
          (Part000.p_ret p) (Part000.p_scr p) (Part000.E_EoL_mup p))
       constants h
     = @Part000.computeSeries float (Binary64.number pw) parseFloat
         (Part000.mkParams (Part000.E_manu_mup p) (Part000.Num 0%float)
            (Part000.p_ret p) (Part000.p_scr p) (Part000.E_EoL_mup p))
         constants h
  /\ @Part000.computeSeries float (Binary64.number pw) parseFloat
       (Part000.mkParams (Part000.E_manu_mup p) (Part000.KM_ONE_WAY p)
          (Part000.Num x) (Part000.p_scr p) (Part000.E_EoL_mup p))
       constants h
     = @Part000.computeSeries float (Binary64.number pw) parseFloat
         (Part000.mkParams (Part000.E_manu_mup p) (Part000.KM_ONE_WAY p)
            (Part000.Num 0%float) (Part000.p_scr p) (Part000.E_EoL_mup p))
         constants h
  /\ @Part000.computeSeries float (Binary64.number pw) parseFloat
       (Part000.mkParams (Part000.E_manu_mup p) (Part000.KM_ONE_WAY p)
          (Part000.p_ret p) (Part000.Num x) (Part000.E_EoL_mup p))
       constants h
     = @Part000.computeSeries float (Binary64.number pw) parseFloat
         (Part000.mkParams (Part000.E_manu_mup p) (Part000.KM_ONE_WAY p)
            (Part000.p_ret p) (Part000.Num 0%float) (Part000.E_EoL_mup p))
         constants h
  /\ @Part000.computeSeries float (Binary64.number pw) parseFloat
       (Part000.mkParams (Part000.E_manu_mup p) (Part000.KM_ONE_WAY p)
          (Part000.p_ret p) (Part000.p_scr p) (Part000.Num x))
       constants h
     = @Part000.computeSeries float (Binary64.number pw) parseFloat
         (Part000.mkParams (Part000.E_manu_mup p) (Part000.KM_ONE_WAY p)
            (Part000.p_ret p) (Part000.p_scr p) (Part000.Num 0%float))
         constants h.
Proof.
  intros Hx.
  pose proof (toNum_non_finite pw parseFloat x Hx) as E.
  refine (conj _ (conj E (conj _ (conj _ (conj _ (conj _ (conj _ _))))))).
  - apply toNum_finite.
  - apply toNum_unparsable.
  - apply computeSeries_text_ext. unfold Part000.numeric.
    cbn [Part000.E_manu_mup Part000.KM_ONE_WAY Part000.p_ret Part000.p_scr
         Part000.E_EoL_mup zero Binary64.number]. now rewrite E.
  - apply computeSeries_text_ext. unfold Part000.numeric.
    cbn [Part000.E_manu_mup Part000.KM_ONE_WAY Part000.p_ret Part000.p_scr
         Part000.E_EoL_mup zero Binary64.number]. now rewrite E.
  - apply computeSeries_text_ext. unfold Part000.numeric.
    cbn [Part000.E_manu_mup Part000.KM_ONE_WAY Part000.p_ret Part000.p_scr
         Part000.E_EoL_mup zero Binary64.number]. now rewrite E.
  - apply computeSeries_text_ext. unfold Part000.numeric.
    cbn [Part000.E_manu_mup Part000.KM_ONE_WAY Part000.p_ret Part000.p_scr
         Part000.E_EoL_mup zero Binary64.number]. now rewrite E.
  - apply computeSeries_text_ext. unfold Part000.numeric.
    cbn [Part000.E_manu_mup Part000.KM_ONE_WAY Part000.p_ret Part000.p_scr
         Part000.E_EoL_mup zero Binary64.number]. now rewrite E.
Qed.

(** In the expected case of the text-input dashboard a NaN manufacturing
    value gives the first cost of a manufacturing value 0: 51.4448 g. *)
Lemma toNum_replaces_non_finite_witness :
  App.firstCost_g
    (@Part000.computeSeries float Binary64 Binary64.parse_decimal
       (Part000.mkParams (Part000.Num nan) (Part000.Str "300")
          (Part000.Num 0.95%float) (Part000.Num 0.02%float)
          (Part000.Str "0.0000")) Expected.constants_f 1)
  = 51.444800000000001%float.
Proof.
  destruct (toNum_replaces_non_finite Binary64.pow_mul
              Binary64.parse_decimal nan ExpectedText.params
              Expected.constants_f 1 eq_refl) as (_ & _ & _ & H & _).
  cbn [ExpectedText.params Part000.KM_ONE_WAY Part000.p_ret Part000.p_scr
       Part000.E_EoL_mup] in H.
  change (Binary64.number Binary64.pow_mul) with Binary64 in H.
  rewrite H. vm_compute. reflexivity.
Defined.

(** C7 fails on src/App.jsx: with a NaN manufacturing value and the other
    inputs of the expected case, [computeSeries] returns a series of 50
    entries that all hold NaN, and NaN for the two costs. *)
Lemma computeSeries_propagates_NaN :
  List.length
    (App.data
       (@App.computeSeries float Binary64 NaNManufacturing.params
          Expected.constants_f 50)) = 50%nat
  /\ forallb (fun pt => is_nan (App.MUP_g pt))
       (App.data
          (@App.computeSeries float Binary64 NaNManufacturing.params
             Expected.constants_f 50)) = true
  /\ is_nan
       (App.firstCost_g
          (@App.computeSeries float Binary64 NaNManufacturing.params
             Expected.constants_f 50)) = true
  /\ is_nan
       (App.lastCost_g
          (@App.computeSeries float Binary64 NaNManufacturing.params
             Expected.constants_f 50)) = true
  /\ App.breakEven
       (@App.computeSeries float Binary64 NaNManufacturing.params
          Expected.constants_f 50) = None.
Proof. vm_compute. repeat split. Qed.

(** ** The expected case of section 8 *)

(** Exactly: [q = 0.931], [start_cost = 0.0490248], [cycle_cost = 0.00322]
    and the amortized value of cycle 1 is [0.0507448] kg. *)
Lemma expected_case_exact :
  App.survival Expected.params_q = Exact.dec 931 3
  /\ App.E_start Expected.params_q Expected.constants_q = Exact.dec 490248 7
  /\ App.E_cycle Expected.params_q Expected.constants_q = Exact.dec 322 5
  /\ App.amort Expected.params_q Expected.constants_q 1
     = Exact.dec 507448 7.
Proof. repeat split; now apply Qc_is_canon. Qed.

(** With doubles, for every [**] that returns its base at exponent 1, the
    amortized value of cycle 1 is the double nearest to 0.0507448. *)
Lemma expected_case_double (pw : float -> Z -> float) :
  (forall x, pw x 1 = x) ->
  @App.survival float (Binary64.number pw) Expected.params_f
  = 0.93099999999999994%float
  /\ @App.amort float (Binary64.number pw) Expected.params_f
       Expected.constants_f 1 = 0.0507448%float.
Proof.
  intros Hpw. split; [reflexivity|].
  unfold App.amort, Loop.amort, Loop.U_eff_js.
  cbn [pow strict_eqb Binary64.number].
  rewrite Hpw. reflexivity.
Qed.

(** C8, as the code has it.  With the inputs of section 8 and horizon 50,
    [q] is 0.931 and the amortized value of cycle 1 is 0.0507448 kg, that
    is 50.7448 g: exactly so in rational arithmetic, and with doubles [q] is
    the double just below 0.931 and the value is the double nearest to
    0.0507448 (50.7448 in the series, in grams), for every implementation
    of [**] that returns its base at exponent 1. *)
Theorem expected_case_values (pw : float -> Z -> float) :
  (forall x, pw x 1 = x) ->
  let r_exact :=
    App.computeSeries Expected.params_q Expected.constants_q
      Expected.horizon in
  let r_double :=
    @App.computeSeries float (Binary64.number pw) Expected.params_f
      Expected.constants_f Expected.horizon in
  App.q r_exact = Exact.dec 931 3
  /\ App.amort Expected.params_q Expected.constants_q 1
     = Exact.dec 507448 7
  /\ App.firstCost_g r_exact = Exact.dec 507448 4
  /\ nth_error (App.data r_exact) 0
     = Some (App.mkPoint 1 (Exact.dec 507448 4) (Exact.dec 437 2))
  /\ App.q r_double = 0.93099999999999994%float
  /\ PrimFloat.leb (abs (App.q r_double - 0.931)) 1.2e-16 = true
  /\ @App.amort float (Binary64.number pw) Expected.params_f
       Expected.constants_f 1 = 0.0507448%float
  /\ App.firstCost_g r_double = 50.7448%float
  /\ nth_error (App.data r_double) 0
     = Some (App.mkPoint 1 50.7448%float 4.37%float).
Proof.
  intros Hpw r_exact r_double.
  destruct expected_case_exact as (Hq & _ & _ & Ha).
  destruct (expected_case_double pw Hpw) as [Hqf Haf].
  assert (Hh : 1 <= Expected.horizon) by (unfold Expected.horizon; lia).
  refine (conj Hq (conj Ha (conj _ (conj _ (conj Hqf (conj _
            (conj Haf (conj _ _)))))))).
  - unfold r_exact. rewrite computeSeries_firstCost_g, Ha by exact Hh.
    now apply Qc_is_canon.
  - unfold r_exact. change 0%nat with (Z.to_nat (1 - 1)).
    rewrite computeSeries_entry by lia. unfold App.push. rewrite Ha.
    do 2 f_equal; now apply Qc_is_canon.
  - unfold r_double. change (App.q _) with
      (@App.survival float (Binary64.number pw) Expected.params_f).
    rewrite Hqf. reflexivity.
  - unfold r_double. rewrite computeSeries_firstCost_g, Haf by exact Hh.
    reflexivity.
  - unfold r_double. change 0%nat with (Z.to_nat (1 - 1)).
    rewrite computeSeries_entry by lia. unfold App.push. rewrite Haf.
    reflexivity.
Qed.

Lemma expected_case_values_witness :
  App.firstCost_g
    (@App.computeSeries float Binary64 Expected.params_f
       Expected.constants_f Expected.horizon) = 50.7448%float
  /\ App.firstCost_g
       (App.computeSeries Expected.params_q Expected.constants_q
          Expected.horizon) = Exact.dec 507448 4.
Proof.
  pose proof (expected_case_values Binary64.pow_mul
                (fun x => eq_refl)) as H.
  cbv zeta in H.
  destruct H as (_ & _ & Hx & _ & _ & _ & _ & Hd & _).
  exact (conj Hd Hx).
Defined.

(** C8 fails as written: the amortized value of cycle 1 is not 0.05073 kg
    within a floating-point tolerance; it exceeds 0.05073 by more than
    0.00001, exactly and with doubles (50.7448 g, not 50.73 g). *)
Lemma expected_case_not_0_05073 :
  (Exact.dec 5073 5 + Exact.dec 1 5
   < App.amort Expected.params_q Expected.constants_q 1)%Qc
  /\ PrimFloat.ltb (0.05073 + 0.00001)%float
       (@App.amort float Binary64 Expected.params_f Expected.constants_f 1)
     = true
  /\ PrimFloat.ltb (50.73 + 0.01)%float
       (App.firstCost_g
          (@App.computeSeries float Binary64 Expected.params_f
             Expected.constants_f Expected.horizon))
     = true.
Proof.
  refine (conj _ (conj _ _)).
  - vm_compute. reflexivity.
  - vm_compute. reflexivity.
  - vm_compute. reflexivity.
Qed.

(** * Further properties of the engine *)

(** ** Series and summary *)

Lemma upfrom_firstn (k : nat) : forall N k',
  (k <= k')%nat -> firstn k (upfrom N k') = upfrom N k.
Proof.
  induction k as [|k IH]; intros N k' Hk; [reflexivity|].
  destruct k' as [|k']; [lia|]. simpl. f_equal. apply IH. lia.
Qed.

(** X1.  For a horizon of at least 1 the two costs returned by
    [computeSeries] are the values of the first and of the last entry of the
    series, and with horizon 1 the series is that one entry. *)
Theorem summary_matches_series {num : Type} {NM : Number num}
    (params : App.Params num) (constants : App.Constants num) (h : Z) :
  1 <= h ->
  option_map App.MUP_g
    (nth_error (App.data (App.computeSeries params constants h)) 0)
  = Some (App.firstCost_g (App.computeSeries params constants h))
  /\ option_map App.MUP_g
       (nth_error (App.data (App.computeSeries params constants h))
          (Z.to_nat (h - 1)))
     = Some (App.lastCost_g (App.computeSeries params constants h))
  /\ (h = 1 ->
      App.data (App.computeSeries params constants h)
      = [App.mkPoint 1
           (App.firstCost_g (App.computeSeries params constants h))
           (mul (App.E_single_shot constants) thousand)]
      /\ App.lastCost_g (App.computeSeries params constants h)
         = App.firstCost_g (App.computeSeries params constants h)).
Proof.
  intros Hh.
  rewrite computeSeries_firstCost_g, computeSeries_lastCost_g by exact Hh.
  refine (conj _ (conj _ _)).
  - change 0%nat with (Z.to_nat (1 - 1)).
    now rewrite computeSeries_entry by lia.
  - now rewrite computeSeries_entry by lia.
  - intros ->. split; [|reflexivity].
    rewrite computeSeries_data. reflexivity.
Qed.

Lemma summary_matches_series_witness :
  option_map App.MUP_g
    (nth_error
       (App.data
          (@App.computeSeries float Binary64 Expected.params_f
             Expected.constants_f 50)) 49)
  = Some
      (App.lastCost_g
         (@App.computeSeries float Binary64 Expected.params_f
            Expected.constants_f 50)).
Proof.
  exact (proj1 (proj2 (@summary_matches_series float Binary64
                         Expected.params_f Expected.constants_f 50
                         ltac:(lia)))).
Defined.

(** ** Changing the horizon *)

(** X2.  A smaller horizon gives a prefix of the series of a larger one:
    the entries already computed do not depend on the horizon, nor do [q],
    the cycle cost and the first cost. *)
Theorem horizon_prefix {num : Type} {NM : Number num}
    (params : App.Params num) (constants : App.Constants num) (h h' : Z) :
  h <= h' ->
  App.data (App.computeSeries params constants h)
  = firstn (Z.to_nat h) (App.data (App.computeSeries params constants h'))
  /\ App.q (App.computeSeries params constants h)
     = App.q (App.computeSeries params constants h')
  /\ App.E_cycle_g (App.computeSeries params constants h)
     = App.E_cycle_g (App.computeSeries params constants h')
  /\ (1 <= h ->
      App.firstCost_g (App.computeSeries params constants h)
      = App.firstCost_g (App.computeSeries params constants h')).
Proof.
  intros Hh. refine (conj _ (conj eq_refl (conj eq_refl _))).
  - rewrite !computeSeries_data, !cycles_upfrom, firstn_map.
    now rewrite upfrom_firstn by lia.
  - intros H1. now rewrite !computeSeries_firstCost_g by lia.
Qed.

Lemma horizon_prefix_witness :
  App.data
    (@App.computeSeries float Binary64 Expected.params_f
       Expected.constants_f 10)
  = firstn 10
      (App.data
         (@App.computeSeries float Binary64 Expected.params_f
            Expected.constants_f 50)).
Proof.
  exact (proj1 (@horizon_prefix float Binary64 Expected.params_f
                  Expected.constants_f 10 50 ltac:(lia))).
Defined.

(** The first crossing within a horizon, seen from a larger horizon. *)
Lemma first_crossing_horizon (test : Z -> bool) (h h' : Z)
    (be be' : option Z) :
  h <= h' -> first_crossing test h be -> first_crossing test h' be' ->
  (forall b, be = Some b -> be' = Some b)
  /\ (forall b, be' = Some b -> b <= h -> be = Some b)
  /\ (forall b, be' = Some b -> h < b -> be = None)
  /\ (be' = None -> be = None).
Proof.
  intros Hh (Hs & Hn & He) (Hs' & Hn' & He').
  refine (conj _ (conj _ (conj _ _))).
  - intros b Hb. destruct (Hs b Hb) as (Hr & Ht & Hmin).
    destruct (He' b ltac:(lia) Ht) as (b' & Hb' & Hle).
    destruct (Hs' b' Hb') as (Hr' & Ht' & Hmin').
    destruct (Z.eq_dec b' b) as [->|Hne]; [exact Hb'|].
    rewrite (Hmin b') in Ht' by lia. discriminate Ht'.
  - intros b Hb' Hle. destruct (Hs' b Hb') as (Hr' & Ht' & Hmin').
    destruct (He b ltac:(lia) Ht') as (b0 & Hb0 & Hle0).
    destruct (Hs b0 Hb0) as (Hr0 & Ht0 & _).
    destruct (Z.eq_dec b0 b) as [->|Hne]; [exact Hb0|].
    rewrite (Hmin' b0) in Ht0 by lia. discriminate Ht0.
  - intros b Hb' Hlt. destruct (Hs' b Hb') as (_ & _ & Hmin').
    apply Hn. intros N HN. apply Hmin'. lia.
  - intros Hnone. apply Hn. intros N HN.
    apply (proj1 Hn' Hnone). lia.
Qed.

(** X3.  The break-even cycle does not move when the horizon changes: a
    break-even found within a horizon is the break-even of every larger
    horizon, and a larger horizon's break-even is found by a smaller horizon
    exactly when it lies within it. *)
Theorem breakEven_horizon {num : Type} {NM : Number num}
    (params : App.Params num) (constants : App.Constants num) (h h' : Z) :
  h <= h' ->
  (forall b,
     App.breakEven (App.computeSeries params constants h) = Some b ->
     App.breakEven (App.computeSeries params constants h') = Some b)
  /\ (forall b,
        App.breakEven (App.computeSeries params constants h') = Some b ->
        b <= h ->
        App.breakEven (App.computeSeries params constants h) = Some b)
  /\ (forall b,
        App.breakEven (App.computeSeries params constants h') = Some b ->
        h < b ->
        App.breakEven (App.computeSeries params constants h) = None)
  /\ (App.breakEven (App.computeSeries params constants h') = None ->
      App.breakEven (App.computeSeries params constants h) = None).
Proof.
  intros Hh.
  apply (first_crossing_horizon
           (fun N =>
              leb (App.amort params constants N)
                (App.E_single_shot constants)) h h'); [exact Hh| |];
    unfold App.computeSeries, App.computeSeries_in, App.amort;
    cbn [fst App.breakEven]; apply run_breakEven_first.
Qed.

Lemma breakEven_horizon_witness :
  App.breakEven
    (@App.computeSeries float Binary64 Best.params_f Expected.constants_f
       200) = Some 19.
Proof.
  apply (proj1 (@breakEven_horizon float Binary64 Best.params_f
                  Expected.constants_f 50 200 ltac:(lia))).
  vm_compute. reflexivity.
Defined.

(** X4.  The tests on the break-even value that decide whether the pages
    show a break-even (header, card, badge, reference line) succeed exactly
    when a break-even was found: the value is never 0. *)
Theorem breakEven_truthy {num : Type} {NM : Number num}
    (params : App.Params num) (constants : App.Constants num)
    (manu km pret pscr eol : num) (h : Z) :
  (ToBoolean (App.breakEven (App.computeSeries params constants h)) = true
   <-> App.breakEven (App.computeSeries params constants h) <> None)
  /\ (ToBoolean
        (Part001.breakEven (Part001.calc constants manu km pret pscr eol h))
      = true
      <-> Part001.breakEven (Part001.calc constants manu km pret pscr eol h)
          <> None).
Proof.
  assert (G : forall test be, first_crossing test h be ->
                (ToBoolean be = true <-> be <> None)).
  { intros test be (Hs & _). destruct be as [b|]; simpl.
    - destruct (Hs b eq_refl) as (Hr & _).
      split; [discriminate|]. intros _.
      apply negb_true_iff, Z.eqb_neq. lia.
    - split; [discriminate|]. intros H. now contradiction H. }
  split.
  - apply (G (fun N => leb (App.amort params constants N)
                         (App.E_single_shot constants))).
    unfold App.computeSeries, App.computeSeries_in, App.amort.
    cbn [fst App.breakEven]. apply run_breakEven_first.
  - apply (G (fun N => leb (Part001.amort constants manu km pret pscr eol N)
                         (App.E_single_shot constants))).
    unfold Part001.calc, Part001.amort. cbn [Part001.breakEven].
    apply run_breakEven_first.
Qed.

(** ** The shape of the curve, exactly *)

Section ExactCurve.
#[local] Open Scope Qc_scope.











End ExactCurve.

Section ExactCurveFacts.
#[local] Open Scope Qc_scope.







End ExactCurveFacts.











(** ** NaN in doubles *)

Section NaN.
#[local] Open Scope float_scope.

Lemma Prim2SF_nan : Prim2SF nan = S754_nan.
Proof. reflexivity. Qed.

Lemma SFeqb_refl (s : spec_float) : s <> S754_nan -> SFeqb s s = true.
Proof.
  intros Hs. destruct s as [b|b| |b m e]; try reflexivity.
  - now destruct b.
  - now contradiction Hs.
  - unfold SFeqb. simpl. rewrite Z.compare_refl, Pos.compare_cont_refl.
    now destruct b.
Qed.

Lemma is_nan_Prim2SF (x : float) :
  is_nan x = true <-> Prim2SF x = S754_nan.
Proof.
  unfold is_nan. rewrite FloatAxioms.eqb_spec. split.
  - intros H. destruct (Prim2SF x) as [b|b| |b m e] eqn:E; try reflexivity;
      rewrite SFeqb_refl in H by discriminate; discriminate H.
  - intros ->. reflexivity.
Qed.

Lemma is_nan_eq (x : float) : is_nan x = true -> x = nan.
Proof.
  intros H. apply FloatAxioms.Prim2SF_inj.
  now rewrite Prim2SF_nan, <- is_nan_Prim2SF.
Qed.

Lemma nan_add_l (y : float) : nan + y = nan.
Proof.
  apply FloatAxioms.Prim2SF_inj. rewrite FloatAxioms.add_spec, Prim2SF_nan.
  now destruct (Prim2SF y).
Qed.

Lemma nan_add_r (x : float) : x + nan = nan.
Proof.
  apply FloatAxioms.Prim2SF_inj. rewrite FloatAxioms.add_spec, Prim2SF_nan.
  now destruct (Prim2SF x).
Qed.

Lemma nan_sub_r (x : float) : x - nan = nan.
Proof.
  apply FloatAxioms.Prim2SF_inj. rewrite FloatAxioms.sub_spec, Prim2SF_nan.
  now destruct (Prim2SF x).
Qed.

Lemma nan_mul_l (y : float) : nan * y = nan.
Proof.
  apply FloatAxioms.Prim2SF_inj. rewrite FloatAxioms.mul_spec, Prim2SF_nan.
  now destruct (Prim2SF y).
Qed.

Lemma nan_mul_r (x : float) : x * nan = nan.
Proof.
  apply FloatAxioms.Prim2SF_inj. rewrite FloatAxioms.mul_spec, Prim2SF_nan.
  now destruct (Prim2SF x).
Qed.

Lemma nan_div_l (y : float) : nan / y = nan.
Proof.
  apply FloatAxioms.Prim2SF_inj. rewrite FloatAxioms.div_spec, Prim2SF_nan.
  now destruct (Prim2SF y).
Qed.

Lemma nan_div_r (x : float) : x / nan = nan.
Proof.
  apply FloatAxioms.Prim2SF_inj. rewrite FloatAxioms.div_spec, Prim2SF_nan.
  now destruct (Prim2SF x).
Qed.

Lemma nan_leb (y : float) : (nan <=? y) = false.
Proof. rewrite FloatAxioms.leb_spec, Prim2SF_nan. reflexivity. Qed.

Lemma ltb_not_nan (x y : float) : (x <? y) = true -> is_nan y = false.
Proof.
  intros H. destruct (is_nan y) eqn:E; [|reflexivity].
  apply is_nan_Prim2SF in E. rewrite FloatAxioms.ltb_spec, E in H.
  now destruct (Prim2SF x).
Qed.
End NaN.

Section NaNPropagation.
Variable pw : float -> Z -> float.
#[local] Open Scope float_scope.

Lemma U_eff_js_nan (N : Z) :
  @Loop.U_eff_js float (Binary64.number pw) N nan = nan.
Proof.
  unfold Loop.U_eff_js. cbn [strict_eqb sub div one Binary64.number].
  change (PrimFloat.eqb nan 1) with false. cbv iota.
  now rewrite nan_sub_r, nan_div_r.
Qed.

Lemma loop_amort_nan (S C E q : float) (N : Z) :
  S = nan \/ C = nan \/ E = nan \/ q = nan ->
  @Loop.amort float (Binary64.number pw) S C E q N = nan.
Proof.
  unfold Loop.amort. cbv zeta. cbn [add mul div Binary64.number].
  intros [->|[->|[->| ->]]].
  - now rewrite !nan_add_l, nan_div_l.
  - now rewrite nan_mul_r, nan_add_r, nan_add_l, nan_div_l.
  - now rewrite nan_add_r, nan_div_l.
  - now rewrite U_eff_js_nan, nan_div_r.
Qed.

Lemma has_nan_cases (manu km pret pscr eol : float) :
  has_nan manu km pret pscr eol = true ->
  manu = nan \/ km = nan \/ pret = nan \/ pscr = nan \/ eol = nan.
Proof.
  unfold has_nan. rewrite !orb_true_iff.
  intros [[[[H|H]|H]|H]|H]; apply is_nan_eq in H; tauto.
Qed.

Lemma computeSeries_amort_nan (params : App.Params float)
    (constants : App.Constants float) (N : Z) :
  has_nan (App.E_manu_mup params) (App.KM_ONE_WAY params)
    (App.p_ret params) (App.p_scr params) (App.E_EoL_mup params) = true ->
  @App.amort float (Binary64.number pw) params constants N = nan.
Proof.
  intros H. apply has_nan_cases in H. unfold App.amort.
  apply loop_amort_nan.
  destruct H as [H|[H|[H|[H|H]]]].
  - left. unfold App.E_start. cbn [add Binary64.number].
    now rewrite H, nan_add_r, nan_add_l.
  - right; left. unfold App.E_cycle, App.E_rev.
    cbn [add mul Binary64.number]. now rewrite H, nan_mul_r, nan_add_r.
  - right; right; right. unfold App.survival.
    cbn [mul sub js_min js_max zero one Binary64.number]. rewrite H.
    change (Binary64.min 1 (Binary64.max 0 nan)) with nan.
    apply nan_mul_l.
  - right; right; right. unfold App.survival.
    cbn [mul sub js_min js_max zero one Binary64.number]. rewrite H.
    change (1 - Binary64.min 1 (Binary64.max 0 nan)) with nan.
    apply nan_mul_r.
  - right; right; left. exact H.
Qed.

Lemma calc_amort_nan (constants : App.Constants float)
    (manu km pret pscr eol : float) (N : Z) :
  has_nan manu km pret pscr eol = true ->
  @Part001.amort float (Binary64.number pw) constants manu km pret pscr eol N
  = nan.
Proof.
  intros H. apply has_nan_cases in H. unfold Part001.amort. cbv zeta.
  apply loop_amort_nan. cbn [add mul sub one Binary64.number].
  destruct H as [->|[->|[->|[->| ->]]]].
  - left. now rewrite nan_add_r, nan_add_l.
  - right; left. now rewrite nan_mul_r, nan_add_r.
  - right; right; right. apply nan_mul_l.
  - right; right; right. now rewrite nan_sub_r, nan_mul_r.
  - right; right; left. reflexivity.
Qed.

(** When every [amort] is NaN the loop finds no break-even. *)
Lemma find_nan_none (amort : Z -> float) (ref : float) (h : Z) :
  (forall N, amort N = nan) ->
  find (fun N => PrimFloat.leb (amort N) ref) (cycles h) = None.
Proof.
  intros Ha.
  destruct (find_first_crossing (fun N => PrimFloat.leb (amort N) ref) h)
    as (_ & Hn & _).
  apply Hn. intros N _. now rewrite Ha, nan_leb.
Qed.
End NaNPropagation.

(** X10.  With doubles, for every implementation of [**]: when one of the
    five scenario parameters is NaN, every entry of the series returned by
    [computeSeries] (src/App.jsx) is NaN, no break-even is reported, and for
    a horizon of at least 1 the two costs are NaN. *)
Theorem NaN_parameter_propagates (pw : float -> Z -> float)
    (params : App.Params float) (constants : App.Constants float) (h : Z) :
  has_nan (App.E_manu_mup params) (App.KM_ONE_WAY params)
    (App.p_ret params) (App.p_scr params) (App.E_EoL_mup params) = true ->
  Forall (fun pt => App.MUP_g pt = nan)
    (App.data (@App.computeSeries float (Binary64.number pw) params
                 constants h))
  /\ App.breakEven
       (@App.computeSeries float (Binary64.number pw) params constants h)
     = None
  /\ (1 <= h ->
      App.firstCost_g
        (@App.computeSeries float (Binary64.number pw) params constants h)
      = nan
      /\ App.lastCost_g
           (@App.computeSeries float (Binary64.number pw) params constants
              h) = nan).
Proof.
  intros H.
  pose proof (computeSeries_amort_nan pw params constants) as Ha.
  specialize (fun N => Ha N H).
  refine (conj _ (conj _ _)).
  - rewrite computeSeries_data. apply Forall_forall. intros pt Hpt.
    apply in_map_iff in Hpt. destruct Hpt as (N & <- & _).
    cbn [App.push App.MUP_g]. rewrite Ha. apply nan_mul_l.
  - unfold App.computeSeries, App.computeSeries_in.
    cbn [fst App.breakEven]. rewrite run_breakEven.
    apply (find_nan_none
             (@App.amort float (Binary64.number pw) params constants)).
    exact Ha.
  - intros Hh.
    rewrite computeSeries_firstCost_g, computeSeries_lastCost_g by exact Hh.
    rewrite !Ha. split; apply nan_mul_l.
Qed.

Lemma NaN_parameter_propagates_witness :
  App.breakEven
    (@App.computeSeries float Binary64 NaNManufacturing.params
       Expected.constants_f 50) = None
  /\ App.lastCost_g
       (@App.computeSeries float Binary64 NaNManufacturing.params
          Expected.constants_f 50) = nan.
Proof.
  destruct (NaN_parameter_propagates Binary64.pow_mul
              NaNManufacturing.params Expected.constants_f 50 eq_refl)
    as (_ & Hb & Hc).
  exact (conj Hb (proj2 (Hc ltac:(lia)))).
Defined.

(** X11.  The single-scenario callback has no guard either: with doubles,
    when one of its five inputs is NaN (a cleared number field gives
    [parseFloat("")]), every point of the chart is NaN, no break-even is
    reported, and for a horizon of at least 1 the two costs are NaN. *)
Theorem calc_NaN_propagates (pw : float -> Z -> float)
    (constants : App.Constants float) (manu km pret pscr eol : float)
    (h : Z) :
  has_nan manu km pret pscr eol = true ->
  Forall (fun pt => Part001.MUP pt = nan)
    (Part001.chartData
       (@Part001.calc float (Binary64.number pw) constants manu km pret
          pscr eol h))
  /\ Part001.breakEven
       (@Part001.calc float (Binary64.number pw) constants manu km pret
          pscr eol h) = None
  /\ (1 <= h ->
      Part001.firstCost
        (@Part001.calc float (Binary64.number pw) constants manu km pret
           pscr eol h) = Some nan
      /\ Part001.lastCost
           (@Part001.calc float (Binary64.number pw) constants manu km pret
              pscr eol h) = Some nan).
Proof.
  intros H.
  pose proof (calc_amort_nan pw constants manu km pret pscr eol) as Ha.
  specialize (fun N => Ha N H). unfold Part001.amort in Ha. cbv zeta in Ha.
  unfold Part001.calc. cbv zeta.
  cbn [Part001.chartData Part001.breakEven Part001.firstCost
       Part001.lastCost].
  rewrite run_data, run_breakEven, run_firstCost, run_lastCost.
  refine (conj _ (conj _ _)).
  - apply Forall_forall. intros pt Hpt.
    apply in_map_iff in Hpt. destruct Hpt as (N & <- & _).
    cbn [Part001.MUP]. rewrite Ha. apply nan_mul_l.
  - apply (find_nan_none _ _ _ Ha).
  - intros Hh. rewrite cycles_upfrom.
    destruct (Z.to_nat h) as [|k] eqn:Hk; [lia|].
    cbn [upfrom map hd_error]. now rewrite !Ha.
Qed.

Lemma calc_NaN_propagates_witness :
  Part001.firstCost
    (@Part001.calc float Binary64 Expected.constants_f nan 300%float
       0.95%float 0.02%float (-0.0015)%float 50) = Some nan.
Proof.
  destruct (calc_NaN_propagates Binary64.pow_mul Expected.constants_f nan
              300%float 0.95%float 0.02%float (-0.0015)%float 50 eq_refl)
    as (_ & _ & Hc).
  exact (proj1 (Hc ltac:(lia))).
Defined.

(** ** The copies agree *)

(** X12.  With doubles, when the five fields of the text-input dashboard
    read as finite numbers, its [computeSeries] returns exactly what
    [computeSeries] of src/App.jsx returns on those numbers. *)
Theorem text_copy_agrees_on_finite (pw : float -> Z -> float)
    (parseFloat : string -> float) (params : Part000.Params float)
    (constants : App.Constants float) (h : Z) :
  is_finite (read_value parseFloat (Part000.E_manu_mup params)) = true ->
  is_finite (read_value parseFloat (Part000.KM_ONE_WAY params)) = true ->
  is_finite (read_value parseFloat (Part000.p_ret params)) = true ->
  is_finite (read_value parseFloat (Part000.p_scr params)) = true ->
  is_finite (read_value parseFloat (Part000.E_EoL_mup params)) = true ->
  @Part000.computeSeries float (Binary64.number pw) parseFloat params
    constants h
  = @App.computeSeries float (Binary64.number pw)
      (App.mkParams
         (read_value parseFloat (Part000.E_manu_mup params))
         (read_value parseFloat (Part000.KM_ONE_WAY params))
         (read_value parseFloat (Part000.p_ret params))
         (read_value parseFloat (Part000.p_scr params))
         (read_value parseFloat (Part000.E_EoL_mup params)))
      constants h.
Proof.
  intros H1 H2 H3 H4 H5. rewrite computeSeries_numeric.
  assert (E : forall v, is_finite (read_value parseFloat v) = true ->
                @Part000.toNum float (Binary64.number pw) parseFloat v
                  (@zero float (Binary64.number pw))
                = read_value parseFloat v).
  { intros v Hv. unfold Part000.toNum. cbn [isFinite Binary64.number].
    destruct v as [s|x]; cbn [read_value] in Hv |- *; now rewrite Hv. }
  unfold Part000.numeric. now rewrite !E by assumption.
Qed.

Lemma text_copy_agrees_on_finite_witness :
  @Part000.computeSeries float Binary64 Binary64.parse_decimal
    ExpectedText.params Expected.constants_f 50
  = @App.computeSeries float Binary64
      (App.mkParams (Binary64.parse_decimal "0.0008")
         (Binary64.parse_decimal "300") 0.95%float 0.02%float
         (Binary64.parse_decimal "0.0000"))
      Expected.constants_f 50.
Proof.
  exact (text_copy_agrees_on_finite Binary64.pow_mul Binary64.parse_decimal
           ExpectedText.params Expected.constants_f 50 eq_refl eq_refl
           eq_refl eq_refl eq_refl).
Defined.

(** On a slider value the clamp of [computeSeries] changes nothing. *)
Lemma clamp_slider_value (x : float) :
  slider_value x -> Binary64.min 1 (Binary64.max 0 x) = x.
Proof.
  intros [->|[H0 H1]]; [reflexivity|].
  pose proof (ltb_not_nan _ _ H0) as Hn.
  unfold Binary64.min, Binary64.max.
  change (is_nan 0) with false. change (is_nan 1) with false.
  rewrite Hn, H0. cbn [orb]. rewrite Hn, H1.
  destruct (PrimFloat.ltb x 1); [reflexivity|].
  change (get_sign 1) with false. reflexivity.
Qed.

(** When the clamp changes nothing, the callback and [computeSeries] run
    the same loop. *)
Lemma calc_like_computeSeries {num : Type} {NM : Number num}
    (constants : App.Constants num) (manu km pret pscr eol : num) (h : Z) :
  js_min one (js_max zero pret) = pret ->
  js_min one (js_max zero pscr) = pscr ->
  Part001.q (Part001.calc constants manu km pret pscr eol h)
  = App.q (App.computeSeries (App.mkParams manu km pret pscr eol)
             constants h)
  /\ map (fun pt => (Part001.cycle pt, Part001.MUP pt, Part001.SUP pt))
       (Part001.chartData
          (Part001.calc constants manu km pret pscr eol h))
     = map (fun pt => (App.cycle pt, App.MUP_g pt, App.SUP_g pt))
         (App.data (App.computeSeries (App.mkParams manu km pret pscr eol)
                      constants h))
  /\ Part001.breakEven (Part001.calc constants manu km pret pscr eol h)
     = App.breakEven (App.computeSeries (App.mkParams manu km pret pscr eol)
                        constants h)
  /\ mul (Loop.to_number
            (Part001.firstCost
               (Part001.calc constants manu km pret pscr eol h))) thousand
     = App.firstCost_g (App.computeSeries
                          (App.mkParams manu km pret pscr eol) constants h)
  /\ mul (Loop.to_number
            (Part001.lastCost
               (Part001.calc constants manu km pret pscr eol h))) thousand
     = App.lastCost_g (App.computeSeries
                         (App.mkParams manu km pret pscr eol) constants h)
  /\ Part001.g_cycle (Part001.calc constants manu km pret pscr eol h)
     = App.E_cycle_g (App.computeSeries
                        (App.mkParams manu km pret pscr eol) constants h).
Proof.
  intros Hr Hs.
  assert (Eq : App.survival (App.mkParams manu km pret pscr eol)
               = mul pret (sub one pscr)).
  { unfold App.survival. cbn [App.p_ret App.p_scr]. now rewrite Hr, Hs. }
  unfold Part001.calc, App.computeSeries, App.computeSeries_in.
  cbv zeta.
  cbn [fst Part001.q Part001.chartData Part001.breakEven Part001.firstCost
       Part001.lastCost Part001.g_cycle App.q App.data App.breakEven
       App.firstCost_g App.lastCost_g App.E_cycle_g].
  rewrite !run_data, !run_breakEven, !run_firstCost, !run_lastCost, !map_map.
  rewrite Eq. repeat split.
Qed.

(** X13.  With doubles, for every implementation of [**]: when the two
    probabilities are slider values of [0,1], the single-scenario callback
    and [computeSeries] of src/App.jsx agree on [q], on every point of the
    series, on the break-even, on the two costs and on the cycle cost. *)
Theorem calc_agrees_with_computeSeries (pw : float -> Z -> float)
    (constants : App.Constants float) (manu km pret pscr eol : float)
    (h : Z) :
  slider_value pret -> slider_value pscr ->
  Part001.q
    (@Part001.calc float (Binary64.number pw) constants manu km pret pscr
       eol h)
  = App.q
      (@App.computeSeries float (Binary64.number pw)
         (App.mkParams manu km pret pscr eol) constants h)
  /\ map (fun pt => (Part001.cycle pt, Part001.MUP pt, Part001.SUP pt))
       (Part001.chartData
          (@Part001.calc float (Binary64.number pw) constants manu km pret
             pscr eol h))
     = map (fun pt => (App.cycle pt, App.MUP_g pt, App.SUP_g pt))
         (App.data
            (@App.computeSeries float (Binary64.number pw)
               (App.mkParams manu km pret pscr eol) constants h))
  /\ Part001.breakEven
       (@Part001.calc float (Binary64.number pw) constants manu km pret
          pscr eol h)
     = App.breakEven
         (@App.computeSeries float (Binary64.number pw)
            (App.mkParams manu km pret pscr eol) constants h)
  /\ (Loop.to_number
        (Part001.firstCost
           (@Part001.calc float (Binary64.number pw) constants manu km
              pret pscr eol h)) * 1000)%float
     = App.firstCost_g
         (@App.computeSeries float (Binary64.number pw)
            (App.mkParams manu km pret pscr eol) constants h)
  /\ (Loop.to_number
        (Part001.lastCost
           (@Part001.calc float (Binary64.number pw) constants manu km
              pret pscr eol h)) * 1000)%float
     = App.lastCost_g
         (@App.computeSeries float (Binary64.number pw)
            (App.mkParams manu km pret pscr eol) constants h)
  /\ Part001.g_cycle
       (@Part001.calc float (Binary64.number pw) constants manu km pret
          pscr eol h)
     = App.E_cycle_g
         (@App.computeSeries float (Binary64.number pw)
            (App.mkParams manu km pret pscr eol) constants h).
Proof.
  intros Hr Hs.
  apply (@calc_like_computeSeries float (Binary64.number pw));
    now apply clamp_slider_value.
Qed.

Lemma calc_agrees_with_computeSeries_witness :
  Part001.breakEven
    (@Part001.calc float Binary64 Expected.constants_f 0.0006%float
       100%float 1.0%float 0%float (-0.0001)%float 50)
  = App.breakEven
      (@App.computeSeries float Binary64
         (App.mkParams 0.0006%float 100%float 1.0%float 0%float
            (-0.0001)%float) Expected.constants_f 50).
Proof.
  assert (Hr : slider_value 1.0%float)
    by (right; split; reflexivity).
  assert (Hs : slider_value 0%float) by (left; reflexivity).
  destruct (calc_agrees_with_computeSeries Binary64.pow_mul
              Expected.constants_f 0.0006%float 100%float 1.0%float 0%float
              (-0.0001)%float 50 Hr Hs) as (_ & _ & Hb & _).
  exact Hb.
Defined.

(** X14.  For a horizon of at least 1 the chart of the single-scenario page
    has one point per cycle 1..horizon, in order; every point carries the
    reference [g_single_shot] and the minimum [g_cycle]; and the two costs
    are the values of the first and of the last point (before the
    conversion to grams). *)
Theorem calc_chart_shape {num : Type} {NM : Number num}
    (constants : App.Constants num) (manu km pret pscr eol : num) (h : Z) :
  1 <= h ->
  Z.of_nat
    (List.length
       (Part001.chartData (Part001.calc constants manu km pret pscr eol h)))
  = h
  /\ map Part001.cycle
       (Part001.chartData (Part001.calc constants manu km pret pscr eol h))
     = cycles h
  /\ Forall
       (fun pt =>
          Part001.SUP pt
          = Part001.g_single_shot
              (Part001.calc constants manu km pret pscr eol h)
          /\ Part001.MinCycle pt
             = Part001.g_cycle
                 (Part001.calc constants manu km pret pscr eol h))
       (Part001.chartData (Part001.calc constants manu km pret pscr eol h))
  /\ option_map Part001.MUP
       (nth_error
          (Part001.chartData
             (Part001.calc constants manu km pret pscr eol h)) 0)
     = option_map (fun x => mul x thousand)
         (Part001.firstCost
            (Part001.calc constants manu km pret pscr eol h))
  /\ option_map Part001.MUP
       (nth_error
          (Part001.chartData
             (Part001.calc constants manu km pret pscr eol h))
          (Z.to_nat (h - 1)))
     = option_map (fun x => mul x thousand)
         (Part001.lastCost
            (Part001.calc constants manu km pret pscr eol h)).
Proof.
  intros Hh.
  assert (Hc : map Part001.cycle
                 (Part001.chartData
                    (Part001.calc constants manu km pret pscr eol h))
               = cycles h) by apply calc_chartData.
  refine (conj _ (conj Hc (conj _ (conj _ _)))).
  - rewrite <- (length_map Part001.cycle), Hc, cycles_upfrom, upfrom_length.
    lia.
  - unfold Part001.calc. cbv zeta.
    cbn [Part001.chartData Part001.g_single_shot Part001.g_cycle].
    rewrite run_data. apply Forall_forall. intros pt Hpt.
    apply in_map_iff in Hpt. destruct Hpt as (N & <- & _). now split.
  - change 0%nat with (Z.to_nat (1 - 1)). rewrite calc_entry by lia.
    unfold Part001.calc, Part001.amort. cbv zeta.
    cbn [Part001.firstCost option_map Part001.MUP].
    rewrite run_firstCost, cycles_upfrom.
    destruct (Z.to_nat h) as [|k] eqn:Hk; [lia|]. reflexivity.
  - rewrite calc_entry by lia.
    unfold Part001.calc, Part001.amort. cbv zeta.
    cbn [Part001.lastCost option_map Part001.MUP].
    rewrite run_lastCost, cycles_upfrom.
    destruct (Z.to_nat h) as [|k] eqn:Hk; [lia|]. reflexivity.
Qed.

Lemma calc_chart_shape_witness :
  map Part001.cycle
    (Part001.chartData
       (@Part001.calc float Binary64 Expected.constants_f 0.0008%float
          300%float 0.95%float 0.02%float (-0.0015)%float 50))
  = cycles 50.
Proof.
  exact (proj1 (proj2 (@calc_chart_shape float Binary64
                         Expected.constants_f 0.0008%float 300%float
                         0.95%float 0.02%float (-0.0015)%float 50
                         ltac:(lia)))).
Defined.

(** X15.  For a horizon below 1 the single-scenario callback raises
    nothing: the chart is empty, the break-even and the two costs are
    [null]; [q] and the cycle cost are computed as usual. *)
Theorem calc_horizon_below_one {num : Type} {NM : Number num}
    (constants : App.Constants num) (manu km pret pscr eol : num) (h : Z) :
  h < 1 ->
  Part001.chartData (Part001.calc constants manu km pret pscr eol h) = []
  /\ Part001.breakEven (Part001.calc constants manu km pret pscr eol h)
     = None
  /\ Part001.firstCost (Part001.calc constants manu km pret pscr eol h)
     = None
  /\ Part001.lastCost (Part001.calc constants manu km pret pscr eol h)
     = None
  /\ Part001.q (Part001.calc constants manu km pret pscr eol h)
     = mul pret (sub one pscr)
  /\ Part001.g_cycle (Part001.calc constants manu km pret pscr eol h)
     = mul (Part001.E_cycle
              (Part001.calc constants manu km pret pscr eol h)) thousand.
Proof.
  intros Hh. unfold Part001.calc. cbv zeta.
  cbn [Part001.chartData Part001.breakEven Part001.firstCost
       Part001.lastCost Part001.q Part001.g_cycle Part001.E_cycle].
  rewrite run_iterate, cycles_nil by exact Hh. repeat split.
Qed.

Lemma calc_horizon_below_one_witness :
  Part001.chartData
    (@Part001.calc float Binary64 Expected.constants_f 0.0008%float
       300%float 0.95%float 0.02%float (-0.0015)%float (-3)) = [].
Proof.
  exact (proj1 (@calc_horizon_below_one float Binary64
                  Expected.constants_f 0.0008%float 300%float 0.95%float
                  0.02%float (-0.0015)%float (-3) ltac:(lia))).
Defined.

(** ** The chart rows of the scenario dashboards *)

Section ChartFacts.
Context {num : Type}.
Implicit Types (m : list (Z * Chart.Row num)) (r : App.Point num).

Lemma get_None m (k : Z) :
  Chart.get k m = None <-> ~ In k (map fst m).
Proof.
  induction m as [|[k' row] m IH]; simpl; [tauto|].
  destruct (Z.eqb_spec k' k) as [->|Hne].
  - split; [discriminate|]. intros H. contradiction H. now left.
  - rewrite IH. tauto.
Qed.

Lemma get_Some_In m (k : Z) (row : Chart.Row num) :
  Chart.get k m = Some row -> In (k, row) m.
Proof.
  induction m as [|[k' row'] m IH]; simpl; [discriminate|].
  destruct (Z.eqb_spec k' k) as [->|Hne].
  - intros [= ->]. now left.
  - intros H. right. now apply IH.
Qed.

Lemma set_fresh m (k : Z) (row : Chart.Row num) :
  ~ In k (map fst m) -> Chart.set k row m = m ++ [(k, row)].
Proof.
  induction m as [|[k' row'] m IH]; simpl; intros Hk; [reflexivity|].
  destruct (Z.eqb_spec k' k) as [->|Hne]; [tauto|].
  rewrite IH by tauto. reflexivity.
Qed.

Lemma set_keys_present m (k : Z) (row : Chart.Row num) :
  In k (map fst m) -> map fst (Chart.set k row m) = map fst m.
Proof.
  induction m as [|[k' row'] m IH]; simpl; intros Hk; [contradiction|].
  destruct (Z.eqb_spec k' k) as [->|Hne]; [reflexivity|].
  simpl. rewrite IH; [reflexivity|]. destruct Hk; [contradiction|assumption].
Qed.

Lemma set_Forall (P : Z * Chart.Row num -> Prop) m (k : Z)
    (row : Chart.Row num) :
  Forall P m -> P (k, row) -> Forall P (Chart.set k row m).
Proof.
  intros Hm Hk. induction Hm as [|[k' row'] m Hx Hm IH]; simpl.
  - now constructor.
  - destruct (Z.eqb_spec k' k) as [->|Hne]; constructor; assumption.
Qed.

Lemma add_point_well_keyed (key : string) m r :
  well_keyed m -> well_keyed (Chart.add_point key m r).
Proof.
  intros [Hnd Hrows]. unfold Chart.add_point.
  destruct (Chart.get (App.cycle r) m) as [row|] eqn:Hget.
  - assert (Hin : In (App.cycle r) (map fst m)).
    { destruct (in_dec Z.eq_dec (App.cycle r) (map fst m)) as [H|H];
        [exact H|].
      apply get_None in H. congruence. }
    assert (Hc : Chart.cycle row = App.cycle r).
    { apply get_Some_In in Hget.
      apply (proj1 (Forall_forall _ _) Hrows) in Hget. exact Hget. }
    split.
    + now rewrite set_keys_present.
    + apply set_Forall; [exact Hrows|exact Hc].
  - apply get_None in Hget. rewrite set_fresh by exact Hget. split.
    + rewrite map_app. simpl.
      apply NoDup_app; [exact Hnd|repeat constructor; tauto|].
      intros x Hx [<-|[]]. contradiction.
    + apply Forall_app. split; [exact Hrows|]. now repeat constructor.
Qed.

Lemma add_well_keyed (key : string) (arr : list (App.Point num)) : forall m,
  well_keyed m -> well_keyed (Chart.add arr key m).
Proof.
  unfold Chart.add.
  induction arr as [|r arr IH]; intros m Hm; [exact Hm|].
  simpl. apply IH. now apply add_point_well_keyed.
Qed.

Lemma add_point_keys (key : string) m r (k : Z) :
  In k (map fst (Chart.add_point key m r))
  <-> In k (map fst m) \/ k = App.cycle r.
Proof.
  unfold Chart.add_point.
  destruct (Chart.get (App.cycle r) m) as [row|] eqn:Hget.
  - assert (Hin : In (App.cycle r) (map fst m)).
    { destruct (in_dec Z.eq_dec (App.cycle r) (map fst m)) as [H|H];
        [exact H|].
      apply get_None in H. congruence. }
    rewrite set_keys_present by exact Hin.
    split; [tauto|]. intros [H| ->]; assumption.
  - apply get_None in Hget. rewrite set_fresh by exact Hget.
    rewrite map_app, in_app_iff. simpl. intuition.
Qed.

Lemma add_keys (key : string) (arr : list (App.Point num)) : forall m k,
  In k (map fst (Chart.add arr key m))
  <-> In k (map fst m) \/ In k (map App.cycle arr).
Proof.
  unfold Chart.add.
  induction arr as [|r arr IH]; intros m k; simpl; [tauto|].
  rewrite IH, add_point_keys. intuition.
Qed.

(** The sort. *)
Lemma insert_perm (a : Chart.Row num) (l : list (Chart.Row num)) :
  Permutation (Chart.insert a l) (a :: l).
Proof.
  induction l as [|b l IH]; simpl; [reflexivity|].
  destruct (Chart.cycle a - Chart.cycle b <=? 0); [reflexivity|].
  rewrite IH. apply perm_swap.
Qed.

Lemma sort_perm (l : list (Chart.Row num)) : Permutation (Chart.sort l) l.
Proof.
  induction l as [|a l IH]; simpl; [reflexivity|].
  rewrite insert_perm. now constructor.
Qed.

Lemma insert_sorted (a : Chart.Row num) (l : list (Chart.Row num)) :
  StronglySorted (fun x y => Chart.cycle x <= Chart.cycle y) l ->
  StronglySorted (fun x y => Chart.cycle x <= Chart.cycle y)
    (Chart.insert a l).
Proof.
  intros Hl. induction Hl as [|b l Hl IH Hb]; simpl.
  - repeat constructor.
  - destruct (Z.leb_spec (Chart.cycle a - Chart.cycle b) 0) as [Hle|Hgt].
    + constructor; [now constructor|].
      constructor; [lia|].
      apply Forall_forall. intros x Hx.
      apply (proj1 (Forall_forall _ _) Hb) in Hx. lia.
    + constructor; [exact IH|].
      apply Forall_forall. intros x Hx.
      apply (Permutation_in _ (insert_perm a l)) in Hx.
      destruct Hx as [<-|Hx]; [lia|].
      now apply (proj1 (Forall_forall _ _) Hb).
Qed.

Lemma sort_sorted (l : list (Chart.Row num)) :
  StronglySorted (fun x y => Chart.cycle x <= Chart.cycle y) (Chart.sort l).
Proof.
  induction l as [|a l IH]; simpl; [constructor|].
  now apply insert_sorted.
Qed.

(** Rows already in increasing order of cycle stay where they are. *)
Lemma sort_increasing (l : list (Chart.Row num)) :
  StronglySorted (fun x y => Chart.cycle x <= Chart.cycle y) l ->
  Chart.sort l = l.
Proof.
  intros Hl. induction Hl as [|a l Hl IH Ha]; [reflexivity|].
  simpl. rewrite IH. destruct l as [|b l]; [reflexivity|].
  simpl. inversion Ha as [|? ? Hab _]; subst.
  destruct (Z.leb_spec (Chart.cycle a - Chart.cycle b) 0); [reflexivity|lia].
Qed.

Lemma sorted_nodup_strict (l : list Z) :
  StronglySorted Z.le l -> NoDup l -> StronglySorted Z.lt l.
Proof.
  intros Hl Hnd. induction Hl as [|a l Hl IH Ha]; [constructor|].
  inversion Hnd as [|? ? Hnotin Hnd']; subst.
  constructor; [now apply IH|].
  apply Forall_forall. intros x Hx.
  pose proof (proj1 (Forall_forall _ _) Ha x Hx) as Hle.
  assert (x <> a) by (intros ->; contradiction). lia.
Qed.

Lemma sorted_map_cycle (l : list (Chart.Row num)) :
  StronglySorted (fun x y => Chart.cycle x <= Chart.cycle y) l ->
  StronglySorted Z.le (map Chart.cycle l).
Proof.
  intros Hl. induction Hl as [|a l Hl IH Ha]; simpl; constructor.
  - exact IH.
  - apply Forall_forall. intros x Hx. apply in_map_iff in Hx.
    destruct Hx as (y & <- & Hy).
    now apply (proj1 (Forall_forall _ _) Ha).
Qed.
End ChartFacts.

(** X16.  Whatever the three series, the chart rows come out in strictly
    increasing order of cycle, one row per cycle, and every cycle that
    occurs in one of the series has its row. *)
Theorem chartData_rows_ordered {num : Type}
    (worst expected best : list (App.Point num)) :
  StronglySorted Z.lt
    (map Chart.cycle (Chart.chartData worst expected best))
  /\ forall k,
       In k (map Chart.cycle (Chart.chartData worst expected best))
       <-> In k (map App.cycle worst) \/ In k (map App.cycle expected)
           \/ In k (map App.cycle best).
Proof.
  unfold Chart.chartData. cbv zeta.
  set (m := Chart.add best "MUP_Best"
              (Chart.add expected "MUP_Expected"
                 (Chart.add worst "MUP_Worst" []))).
  assert (Hwk : well_keyed m).
  { unfold m. repeat apply add_well_keyed. split; constructor. }
  destruct Hwk as [Hnd Hrows].
  assert (Hkeys : map Chart.cycle (map snd m) = map fst m).
  { rewrite map_map. apply map_ext_in. intros kr Hkr.
    now apply (proj1 (Forall_forall _ _) Hrows). }
  pose proof (Permutation_map Chart.cycle (sort_perm (map snd m))) as Hp.
  rewrite Hkeys in Hp.
  split.
  - apply sorted_nodup_strict.
    + apply sorted_map_cycle, sort_sorted.
    + apply (Permutation_NoDup (Permutation_sym Hp) Hnd).
  - intros k. split.
    + intros Hk. apply (Permutation_in _ Hp) in Hk.
      unfold m in Hk. rewrite !add_keys in Hk. simpl in Hk. tauto.
    + intros Hk. apply (Permutation_in _ (Permutation_sym Hp)).
      unfold m. rewrite !add_keys. simpl. tauto.
Qed.

Section ChartOfScenarios.
Context {num : Type}.
Implicit Types (m : list (Z * Chart.Row num)) (r : App.Point num).

(** A series whose cycles are new to the map is appended, one row each. *)
Lemma add_new (key : string) (arr : list (App.Point num)) : forall m,
  NoDup (map fst m ++ map App.cycle arr) ->
  Chart.add arr key m
  = m ++ map (fun r =>
                (App.cycle r,
                 Chart.mkRow (App.cycle r) (App.SUP_g r)
                   [(key, App.MUP_g r)])) arr.
Proof.
  unfold Chart.add.
  induction arr as [|r arr IH]; intros m Hnd; simpl.
  - now rewrite app_nil_r.
  - assert (Hr : ~ In (App.cycle r) (map fst m)).
    { intros Hin. simpl in Hnd. apply NoDup_remove_2 in Hnd.
      apply Hnd. apply in_or_app. now left. }
    unfold Chart.add_point at 2.
    rewrite (proj2 (get_None m (App.cycle r)) Hr), set_fresh by exact Hr.
    cbn [Chart.cycle Chart.SUP Chart.lines Chart.assign].
    rewrite IH.
    + now rewrite <- app_assoc.
    + rewrite map_app, <- app_assoc. exact Hnd.
Qed.

Lemma add_point_other (key : string) m r (k : Z) (row : Chart.Row num) :
  k <> App.cycle r ->
  Chart.add_point key ((k, row) :: m) r
  = (k, row) :: Chart.add_point key m r.
Proof.
  intros Hk. unfold Chart.add_point. simpl.
  destruct (Z.eqb_spec k (App.cycle r)) as [E|_]; [contradiction|].
  reflexivity.
Qed.

Lemma add_other (key : string) (arr : list (App.Point num)) :
  forall m (k : Z) (row : Chart.Row num),
  ~ In k (map App.cycle arr) ->
  Chart.add arr key ((k, row) :: m) = (k, row) :: Chart.add arr key m.
Proof.
  unfold Chart.add.
  induction arr as [|r arr IH]; intros m k row Hk; [reflexivity|].
  simpl in Hk |- *.
  rewrite add_point_other by (intros ->; apply Hk; now left).
  apply IH. tauto.
Qed.

Lemma add_point_head (key : string) m r (row : Chart.Row num) :
  Chart.add_point key ((App.cycle r, row) :: m) r
  = (App.cycle r,
     Chart.mkRow (Chart.cycle row) (Chart.SUP row)
       (Chart.assign key (App.MUP_g r) (Chart.lines row))) :: m.
Proof.
  unfold Chart.add_point. cbn [Chart.get Chart.set].
  now rewrite Z.eqb_refl.
Qed.

(** A series with the cycles of the map, in the same order, assigns its
    value in every row, in place. *)
Lemma add_aligned (key : string) (arr : list (App.Point num)) : forall m,
  map App.cycle arr = map fst m -> NoDup (map fst m) ->
  Chart.add arr key m
  = map (fun p =>
           (fst (snd p),
            Chart.mkRow (Chart.cycle (snd (snd p))) (Chart.SUP (snd (snd p)))
              (Chart.assign key (App.MUP_g (fst p))
                 (Chart.lines (snd (snd p))))))
      (combine arr m).
Proof.
  induction arr as [|r arr IH]; intros m Hc Hnd.
  - destruct m; [reflexivity|discriminate Hc].
  - destruct m as [|[k row] m]; [discriminate Hc|].
    simpl in Hc. injection Hc as Hk Hc. simpl in Hnd.
    inversion Hnd as [|? ? Hnotin Hnd']; subst.
    change (Chart.add (r :: arr) key ((App.cycle r, row) :: m))
      with (Chart.add arr key
              (Chart.add_point key ((App.cycle r, row) :: m) r)).
    rewrite add_point_head.
    rewrite add_other by (rewrite Hc; exact Hnotin).
    rewrite IH by assumption. reflexivity.
Qed.

Lemma combine_map_same {A B C : Type} (f : A -> B) (g : A -> C)
    (l : list A) :
  combine (map f l) (map g l) = map (fun x => (f x, g x)) l.
Proof. induction l; simpl; congruence. Qed.

Lemma upfrom_NoDup (k : nat) : forall N, NoDup (upfrom N k).
Proof.
  induction k as [|k IH]; intros N; simpl; constructor; [|apply IH].
  rewrite upfrom_In. lia.
Qed.

Lemma rows_increasing (g : Z -> Chart.Row num) (k : nat) : forall N,
  (forall M, Chart.cycle (g M) = M) ->
  StronglySorted (fun x y => Chart.cycle x <= Chart.cycle y)
    (map g (upfrom N k)).
Proof.
  induction k as [|k IH]; intros N Hg; simpl; constructor.
  - now apply IH.
  - apply Forall_forall. intros x Hx. apply in_map_iff in Hx.
    destruct Hx as (M & <- & HM). apply upfrom_In in HM.
    rewrite !Hg. lia.
Qed.

(** The merge of three series over the same cycles. *)
Lemma chartData_same_cycles (w e b : Z -> num) (sup : num) (l : list Z) :
  NoDup l ->
  StronglySorted (fun x y => Chart.cycle x <= Chart.cycle y)
    (map (fun N =>
            Chart.mkRow N sup
              [("MUP_Worst"%string, w N); ("MUP_Expected"%string, e N);
               ("MUP_Best"%string, b N)]) l) ->
  Chart.chartData (map (fun N => App.mkPoint N (w N) sup) l)
    (map (fun N => App.mkPoint N (e N) sup) l)
    (map (fun N => App.mkPoint N (b N) sup) l)
  = map (fun N =>
           Chart.mkRow N sup
             [("MUP_Worst"%string, w N); ("MUP_Expected"%string, e N);
              ("MUP_Best"%string, b N)]) l.
Proof.
  intros Hnd Hs. unfold Chart.chartData. cbv zeta.
  assert (E1 : Chart.add (map (fun N => App.mkPoint N (w N) sup) l)
                 "MUP_Worst" []
               = map (fun N =>
                        (N, Chart.mkRow N sup [("MUP_Worst"%string, w N)]))
                   l).
  { rewrite add_new.
    - cbn [app]. now rewrite map_map.
    - cbn [map app]. rewrite map_map. cbn [App.cycle].
      now rewrite map_id. }
  rewrite E1.
  assert (E2 : Chart.add (map (fun N => App.mkPoint N (e N) sup) l)
                 "MUP_Expected"
                 (map (fun N =>
                         (N, Chart.mkRow N sup
                               [("MUP_Worst"%string, w N)])) l)
               = map (fun N =>
                        (N, Chart.mkRow N sup
                              [("MUP_Worst"%string, w N);
                               ("MUP_Expected"%string, e N)])) l).
  { rewrite add_aligned.
    - rewrite combine_map_same, map_map. reflexivity.
    - now rewrite !map_map.
    - rewrite map_map. cbn [fst]. now rewrite map_id. }
  rewrite E2.
  assert (E3 : Chart.add (map (fun N => App.mkPoint N (b N) sup) l)
                 "MUP_Best"
                 (map (fun N =>
                         (N, Chart.mkRow N sup
                               [("MUP_Worst"%string, w N);
                                ("MUP_Expected"%string, e N)])) l)
               = map (fun N =>
                        (N, Chart.mkRow N sup
                              [("MUP_Worst"%string, w N);
                               ("MUP_Expected"%string, e N);
                               ("MUP_Best"%string, b N)])) l).
  { rewrite add_aligned.
    - rewrite combine_map_same, map_map. reflexivity.
    - now rewrite !map_map.
    - rewrite map_map. cbn [fst]. now rewrite map_id. }
  rewrite E3, map_map. cbn [snd].
  now apply sort_increasing.
Qed.
End ChartOfScenarios.

(** X17.  The chart of the three scenarios, which are computed with the
    same horizon, has one row per cycle 1..horizon, in order; the row of
    cycle [N] holds the reference of the first series and, under
    [MUP_Worst], [MUP_Expected] and [MUP_Best], the values of the three
    series at cycle [N]. *)
Theorem chartData_of_three_scenarios {num : Type} {NM : Number num}
    (worst expected best : App.Params num) (constants : App.Constants num)
    (h : Z) :
  Chart.chartData (App.data (App.computeSeries worst constants h))
    (App.data (App.computeSeries expected constants h))
    (App.data (App.computeSeries best constants h))
  = map (fun N =>
           Chart.mkRow N (mul (App.E_single_shot constants) thousand)
             [("MUP_Worst"%string,
               mul (App.amort worst constants N) thousand);
              ("MUP_Expected"%string,
               mul (App.amort expected constants N) thousand);
              ("MUP_Best"%string,
               mul (App.amort best constants N) thousand)])
      (cycles h).
Proof.
  rewrite !computeSeries_data. unfold App.push.
  rewrite cycles_upfrom.
  apply (chartData_same_cycles
           (fun N => mul (App.amort worst constants N) thousand)
           (fun N => mul (App.amort expected constants N) thousand)
           (fun N => mul (App.amort best constants N) thousand)).
  - apply upfrom_NoDup.
  - apply (rows_increasing
             (fun N =>
                Chart.mkRow N (mul (App.E_single_shot constants) thousand)
                  [("MUP_Worst"%string,
                    mul (App.amort worst constants N) thousand);
                   ("MUP_Expected"%string,
                    mul (App.amort expected constants N) thousand);
                   ("MUP_Best"%string,
                    mul (App.amort best constants N) thousand)])).
    reflexivity.
Qed.

(** ** The scenario cards of src/App.jsx *)

Lemma change_keeps_numbers (i : Card.Input) (v : float) (s : Card.State) :
  is_nan (Card.E_manu_mup s) = false ->
  is_nan (Card.KM_ONE_WAY s) = false ->
  is_nan (Card.E_EoL_mup s) = false ->
  is_nan (Card.E_manu_mup (Card.change i v s)) = false
  /\ is_nan (Card.KM_ONE_WAY (Card.change i v s)) = false
  /\ is_nan (Card.E_EoL_mup (Card.change i v s)) = false.
Proof.
  intros H1 H2 H3.
  destruct i; cbn [Card.change Card.E_manu_mup Card.KM_ONE_WAY
                   Card.E_EoL_mup];
    destruct (is_nan v) eqn:Ev; repeat split; assumption || reflexivity.
Qed.

Lemma change_keeps_sliders (i : Card.Input) (v : float) (s : Card.State) :
  (i = Card.ReturnRate \/ i = Card.ScrapRate -> is_nan v = false) ->
  is_nan (Card.p_ret s) = false -> is_nan (Card.p_scr s) = false ->
  is_nan (Card.p_ret (Card.change i v s)) = false
  /\ is_nan (Card.p_scr (Card.change i v s)) = false.
Proof.
  intros Hv H1 H2.
  destruct i; cbn [Card.change Card.p_ret Card.p_scr]; split;
    try assumption; apply Hv; tauto.
Qed.

(** X18.  Whatever is typed into the three number fields of a scenario
    card, and in whatever order, manufacturing, distance and end-of-life
    balance never become NaN (a cleared or unreadable field counts as 0),
    and the name and the colour stay; if moreover the sliders deliver
    numbers, no parameter given to [computeSeries] is NaN. *)
Theorem card_numbers_never_NaN (evs : list (Card.Input * float))
    (s : Card.State) :
  is_nan (Card.E_manu_mup s) = false ->
  is_nan (Card.KM_ONE_WAY s) = false ->
  is_nan (Card.E_EoL_mup s) = false ->
  is_nan (Card.E_manu_mup (Card.changes evs s)) = false
  /\ is_nan (Card.KM_ONE_WAY (Card.changes evs s)) = false
  /\ is_nan (Card.E_EoL_mup (Card.changes evs s)) = false
  /\ Card.name (Card.changes evs s) = Card.name s
  /\ Card.color (Card.changes evs s) = Card.color s
  /\ (is_nan (Card.p_ret s) = false -> is_nan (Card.p_scr s) = false ->
      (forall i v, In (i, v) evs ->
         i = Card.ReturnRate \/ i = Card.ScrapRate -> is_nan v = false) ->
      has_nan (App.E_manu_mup (Card.params (Card.changes evs s)))
        (App.KM_ONE_WAY (Card.params (Card.changes evs s)))
        (App.p_ret (Card.params (Card.changes evs s)))
        (App.p_scr (Card.params (Card.changes evs s)))
        (App.E_EoL_mup (Card.params (Card.changes evs s))) = false).
Proof.
  unfold Card.changes. revert s.
  induction evs as [|[i v] evs IH]; intros s H1 H2 H3.
  - cbn [fold_left]. repeat split; try assumption.
    intros H4 H5 _. unfold has_nan. cbn [Card.params App.E_manu_mup
      App.KM_ONE_WAY App.p_ret App.p_scr App.E_EoL_mup].
    now rewrite H1, H2, H3, H4, H5.
  - cbn [fold_left fst snd].
    destruct (change_keeps_numbers i v s H1 H2 H3) as (G1 & G2 & G3).
    destruct (IH (Card.change i v s) G1 G2 G3)
      as (K1 & K2 & K3 & K4 & K5 & K6).
    refine (conj K1 (conj K2 (conj K3 (conj _ (conj _ _))))).
    + rewrite K4. now destruct i.
    + rewrite K5. now destruct i.
    + intros H4 H5 Hs.
      destruct (change_keeps_sliders i v s
                  (Hs i v (or_introl eq_refl)) H4 H5) as [L1 L2].
      apply K6; [exact L1|exact L2|].
      intros i' v' Hin. apply Hs. now right.
Qed.

(** From the worst case: the distance field cleared, then 1.5 typed into
    the manufacturing field, then the balance field cleared. *)
Lemma card_numbers_never_NaN_witness :
  Card.params
    (Card.changes
       [(Card.Distance, nan); (Card.Manufacturing, 1.5%float);
        (Card.EoLBalance, nan)] Card.worst)
  = App.mkParams 1.5%float 0%float 0.95%float 0.02%float 0%float
  /\ is_nan
       (Card.KM_ONE_WAY
          (Card.changes
             [(Card.Distance, nan); (Card.Manufacturing, 1.5%float);
              (Card.EoLBalance, nan)] Card.worst)) = false.
Proof.
  split; [reflexivity|].
  exact (proj1 (proj2 (card_numbers_never_NaN
                         [(Card.Distance, nan);
                          (Card.Manufacturing, 1.5%float);
                          (Card.EoLBalance, nan)] Card.worst
                         eq_refl eq_refl eq_refl))).
Defined.

(** X19.  For slider values of [0,1] the [q] shown on a scenario card is
    the [q] of the result of [computeSeries] on the state of the card. *)
Theorem card_shows_result_q (pw : float -> Z -> float) (s : Card.State)
    (constants : App.Constants float) (h : Z) :
  slider_value (Card.p_ret s) -> slider_value (Card.p_scr s) ->
  Card.shown_q s
  = App.q (@App.computeSeries float (Binary64.number pw) (Card.params s)
             constants h).
Proof.
  intros Hr Hs.
  change (App.q _) with
    (@App.survival float (Binary64.number pw) (Card.params s)).
  unfold App.survival, Card.shown_q.
  cbn [js_min js_max mul sub zero one Binary64.number Card.params
       App.p_ret App.p_scr].
  now rewrite !clamp_slider_value by assumption.
Qed.

Lemma card_shows_result_q_witness :
  Card.shown_q Card.expected
  = App.q (@App.computeSeries float Binary64 (Card.params Card.expected)
             Expected.constants_f 50).
Proof.
  apply (card_shows_result_q Binary64.pow_mul Card.expected
           Expected.constants_f 50); right; split; reflexivity.
Defined.

(** ** The text fields of src/unnamed/part_000 *)

Lemma replace_commas (s : Blur.jsstring) :
  Blur.commas (Blur.replace s) = Nat.pred (Blur.commas s).
Proof.
  unfold Blur.commas.
  induction s as [|c s IH]; [reflexivity|].
  cbn [Blur.replace]. destruct (N.eqb_spec c Blur.comma) as [->|Hc].
  - rewrite count_occ_cons_neq by (cbv; discriminate).
    rewrite count_occ_cons_eq by reflexivity. reflexivity.
  - rewrite !count_occ_cons_neq by exact Hc. exact IH.
Qed.

Lemma replace_without_comma (s : Blur.jsstring) :
  Blur.commas s = 0%nat -> Blur.replace s = s.
Proof.
  unfold Blur.commas.
  induction s as [|c s IH]; [reflexivity|].
  cbn [Blur.replace]. destruct (N.eqb_spec c Blur.comma) as [->|Hc].
  - rewrite count_occ_cons_eq by reflexivity. discriminate.
  - rewrite count_occ_cons_neq by exact Hc. intros H. now rewrite IH.
Qed.

Lemma trimStart_split (s : Blur.jsstring) :
  exists d, s = d ++ Blur.trimStart s
            /\ Forall (fun c => Blur.is_white_space c = true) d.
Proof.
  induction s as [|c s (d & E & F)].
  - exists []. now split.
  - cbn [Blur.trimStart]. destruct (Blur.is_white_space c) eqn:Ec.
    + exists (c :: d). split; [cbn; now rewrite <- E|now constructor].
    + exists []. now split.
Qed.

Lemma trimStart_head (s : Blur.jsstring) (c : N) (r : Blur.jsstring) :
  Blur.trimStart s = c :: r -> Blur.is_white_space c = false.
Proof.
  induction s as [|a s IH]; [discriminate|].
  cbn [Blur.trimStart]. destruct (Blur.is_white_space a) eqn:Ea.
  - exact IH.
  - intros [= <- _]. exact Ea.
Qed.

Lemma trimStart_fixed (s : Blur.jsstring) :
  (forall c r, s = c :: r -> Blur.is_white_space c = false) ->
  Blur.trimStart s = s.
Proof.
  destruct s as [|c r]; [reflexivity|].
  intros H. cbn [Blur.trimStart]. now rewrite (H c r eq_refl).
Qed.

Lemma trimStart_idem (s : Blur.jsstring) :
  Blur.trimStart (Blur.trimStart s) = Blur.trimStart s.
Proof.
  apply trimStart_fixed. intros c r. apply trimStart_head.
Qed.

Lemma trimEnd_split (s : Blur.jsstring) :
  exists d, s = Blur.trimEnd s ++ d
            /\ Forall (fun c => Blur.is_white_space c = true) d.
Proof.
  destruct (trimStart_split (rev s)) as (d & E & F).
  exists (rev d). split.
  - unfold Blur.trimEnd. rewrite <- rev_app_distr, <- E.
    now rewrite rev_involutive.
  - now apply Forall_rev.
Qed.

Lemma trimEnd_idem (s : Blur.jsstring) :
  Blur.trimEnd (Blur.trimEnd s) = Blur.trimEnd s.
Proof.
  unfold Blur.trimEnd. now rewrite rev_involutive, trimStart_idem.
Qed.

Lemma trim_head (s : Blur.jsstring) (c : N) (r : Blur.jsstring) :
  Blur.trim s = c :: r -> Blur.is_white_space c = false.
Proof.
  unfold Blur.trim. intros E.
  destruct (trimEnd_split (Blur.trimStart s)) as (d & Es & _).
  rewrite E in Es. exact (trimStart_head s c (r ++ d) Es).
Qed.

Lemma trim_last (s : Blur.jsstring) (c : N) (r : Blur.jsstring) :
  rev (Blur.trim s) = c :: r -> Blur.is_white_space c = false.
Proof.
  unfold Blur.trim, Blur.trimEnd. rewrite rev_involutive.
  apply trimStart_head.
Qed.

Lemma trim_idem (s : Blur.jsstring) :
  Blur.trim (Blur.trim s) = Blur.trim s.
Proof.
  unfold Blur.trim at 1.
  rewrite (trimStart_fixed (Blur.trim s)) by (intros c r; apply trim_head).
  unfold Blur.trim. apply trimEnd_idem.
Qed.

Lemma white_count (d : Blur.jsstring) :
  Forall (fun c => Blur.is_white_space c = true) d -> Blur.commas d = 0%nat.
Proof.
  unfold Blur.commas.
  induction 1 as [|c d Hc _ IH]; [reflexivity|].
  rewrite count_occ_cons_neq; [exact IH|].
  intros ->. cbv in Hc. discriminate Hc.
Qed.

Lemma trimStart_commas (s : Blur.jsstring) :
  Blur.commas (Blur.trimStart s) = Blur.commas s.
Proof.
  destruct (trimStart_split s) as (d & E & F).
  pose proof (white_count d F) as W.
  rewrite E at 2. unfold Blur.commas in *.
  rewrite count_occ_app, W. reflexivity.
Qed.

Lemma trimEnd_commas (s : Blur.jsstring) :
  Blur.commas (Blur.trimEnd s) = Blur.commas s.
Proof.
  destruct (trimEnd_split s) as (d & E & F).
  pose proof (white_count d F) as W.
  rewrite E at 2. unfold Blur.commas in *.
  rewrite count_occ_app, W. lia.
Qed.

Lemma normalized_commas (v : Blur.jsstring) :
  Blur.commas (Blur.normalized v) = Nat.pred (Blur.commas v).
Proof.
  unfold Blur.normalized, Blur.trim.
  now rewrite trimEnd_commas, trimStart_commas, replace_commas.
Qed.

(** X20.  On leaving a text field of the text-input dashboard the stored
    text loses exactly one comma if it has any, and neither starts nor
    ends with white space; it is never longer than what was typed. *)
Theorem blur_normalized (v : Blur.jsstring) :
  Blur.commas (Blur.normalized v) = Nat.pred (Blur.commas v)
  /\ (forall c r, Blur.normalized v = c :: r ->
        Blur.is_white_space c = false)
  /\ (forall c r, rev (Blur.normalized v) = c :: r ->
        Blur.is_white_space c = false)
  /\ (List.length (Blur.normalized v) <= List.length v)%nat.
Proof.
  refine (conj (normalized_commas v) (conj _ (conj _ _))).
  - intros c r. apply trim_head.
  - intros c r. apply trim_last.
  - unfold Blur.normalized, Blur.trim.
    destruct (trimEnd_split (Blur.trimStart (Blur.replace v)))
      as (d1 & E1 & _).
    destruct (trimStart_split (Blur.replace v)) as (d2 & E2 & _).
    assert (L : List.length (Blur.replace v) = List.length v).
    { clear. induction v as [|c v IH]; [reflexivity|].
      cbn [Blur.replace]. destruct (N.eqb c Blur.comma); cbn; congruence. }
    rewrite <- L. rewrite E2 at 2. rewrite E1 at 2.
    rewrite !length_app. lia.
Qed.

(** X21.  Leaving a text field a second time changes the stored text
    exactly when the text first typed had two or more commas: the
    normalisation is idempotent on texts with at most one comma, and only
    on them. *)
Theorem blur_idempotent_iff (v : Blur.jsstring) :
  Blur.normalized (Blur.normalized v) = Blur.normalized v
  <-> (Blur.commas v <= 1)%nat.
Proof.
  split.
  - intros E.
    pose proof (normalized_commas (Blur.normalized v)) as H.
    rewrite E, normalized_commas in H. lia.
  - intros H.
    unfold Blur.normalized at 1.
    rewrite replace_without_comma by (rewrite normalized_commas; lia).
    unfold Blur.normalized. apply trim_idem.
Qed.
